(** * LUMA language server: the validation pass, the similarity matcher and
      the completion handlers of [server/src/server.ts]

    The development embeds the server's pure logic shallowly:

    - JavaScript strings are sequences of UTF-16 code units, [list N];
    - JavaScript numbers that hold lengths, offsets and indices are [Z]
      (array indices may become negative, as in [letters[j - 1]]);
    - the ratio returned by [stringSimilarity] is a rational [Q]; the
      operands of the source's division are integers far below 2^53, so
      the comparison with [0.7] and with [1] is the one of the exact
      quotient;
    - a JavaScript [Map] keyed by strings is a [gmap];
    - code that may raise a [TypeError] runs in the [Outcome] monad;
    - the module-level variables of the server are a [ServerState] that
      the handlers pass along, with the log of the requests they send
      over the connection.

    [String.prototype.toLowerCase] is a primitive of the host whose
    Unicode tables are not part of the repository: the server is modelled
    in a section over it, and [asciiLowerCase] instantiates it for
    texts in the ASCII range. *)

From Stdlib Require Import ZArith QArith List Lia String Ascii.
From stdpp Require Import gmap gmultiset list sorting.

Close Scope Q_scope.
Local Open Scope Z_scope.
Local Set Warnings "-clear-no-such-hyp".

(** ** Strings *)

Abbreviation str := (list N).

(** A string literal of the source, as code units. *)
Definition js (s : string) : str := map N_of_ascii (list_ascii_of_string s).

(** Carriage return and line feed. *)
Definition CR : N := 13.
Definition LF : N := 10.

(** [s.length] *)
Definition len {A} (s : list A) : Z := Z.of_nat (length s).

(** [s.substr(start, length)] for a start inside the string or at its end;
    a non-positive [length] yields the empty string. *)
Definition substr (s : str) (start : nat) (length : Z) : str :=
  take (Z.to_nat length) (drop start s).

(** [text.split('')]: one string of a single code unit per code unit. *)
Definition split_chars (text : str) : list str := (fun c => [c]) <$> text.

(** [s.includes(pat)]: [pat] occurs as a contiguous substring of [s]. *)
Fixpoint includes (s pat : str) : bool :=
  bool_decide (pat `prefix_of` s) ||
  match s with
  | [] => false
  | _ :: s' => includes s' pat
  end.

(** ECMAScript WhiteSpace and LineTerminator code points, stripped by
    [String.prototype.trim]. *)
Definition isWhiteSpace (c : N) : bool :=
  ((c =? 0x09) || (c =? 0x0B) || (c =? 0x0C) || (c =? 0x20) || (c =? 0xA0) ||
   (c =? 0xFEFF) || (c =? 0x1680) || ((0x2000 <=? c) && (c <=? 0x200A)) ||
   (c =? 0x202F) || (c =? 0x205F) || (c =? 0x3000) ||
   (c =? 0x0A) || (c =? 0x0D) || (c =? 0x2028) || (c =? 0x2029))%N.

Fixpoint trimStart (s : str) : str :=
  match s with
  | c :: s' => if isWhiteSpace c then trimStart s' else s
  | [] => []
  end.

(** [s.trim()] *)
Definition trim (s : str) : str := reverse (trimStart (reverse (trimStart s))).

(** [toLowerCase] on the ASCII range: [A]..[Z] are mapped to [a]..[z],
    every other code unit is kept. *)
Definition asciiLowerCase (s : str) : str :=
  (fun c => if (65 <=? c) && (c <=? 90) then c + 32 else c)%N <$> s.

(** ** Exceptions *)

Inductive Exception := TypeError.

Inductive Outcome (A : Type) :=
| Return (a : A)
| Throw (e : Exception).
Arguments Return {A} a.
Arguments Throw {A} e.

Global Instance Outcome_ret : MRet Outcome := fun _ a => Return a.
Global Instance Outcome_bind : MBind Outcome := fun _ _ f m =>
  match m with
  | Return a => f a
  | Throw e => Throw e
  end.
Global Instance Outcome_fmap : FMap Outcome := fun _ _ f m =>
  match m with
  | Return a => Return (f a)
  | Throw e => Throw e
  end.

(** [l[i]] on an array: [undefined] (here [None]) outside of it. *)
Definition index {A} (l : list A) (i : Z) : option A :=
  if i <? 0 then None else l !! Z.to_nat i.

(** A method call on [l[i]], which raises a [TypeError] on [undefined]. *)
Definition deref {A} (v : option A) : Outcome A :=
  match v with
  | Some a => Return a
  | None => Throw TypeError
  end.

(** [v == n] for [v] a number or [undefined]: [undefined == 0] is false. *)
Definition looseEqNumber (v : option Z) (n : Z) : bool :=
  match v with
  | Some x => x =? n
  | None => false
  end.

(** Truthiness of a boolean that may still be [undefined]. *)
Definition truthy (v : option bool) : bool := default false v.

(** [for (let i = 0; i < bound; i++)]: the values [i] takes. *)
Definition upto (bound : Z) : list nat := seq 0 (Z.to_nat bound).

(** ** Data model of the language-server protocol *)

Module DiagnosticSeverity.
Inductive t := Error | Warning | Information | Hint.
End DiagnosticSeverity.

(** Positions are kept as the call [textDocument.positionAt(offset)] that
    produces them; the conversion to line and column belongs to the
    text-document library. *)
Inductive Position := positionAt (offset : Z).

Record Range := { start : Position; end_ : Position }.

Record Diagnostic := {
  severity : DiagnosticSeverity.t;
  range : Range;
  message : str;
  source : str
}.

Record Settings := { maxNumberOfProblems : Z }.

Definition defaultSettings : Settings := {| maxNumberOfProblems := 1000 |}.

Record TextDocument := { uri : str; getText : str }.

(** The first kinds of the protocol's enumeration and the one the server
    uses. *)
Module CompletionItemKind.
Inductive t := Text | Method | Function | Keyword.
End CompletionItemKind.

(** The values an item's [data] field holds here. *)
Inductive LSPAny :=
| AnyNull
| AnyBoolean (b : bool)
| AnyNumber (n : Z)
| AnyString (s : str).

Record CompletionItem := {
  label : str;
  kind : option CompletionItemKind.t;
  data : option LSPAny;
  detail : option str
}.

Record TextDocumentPositionParams := {
  textDocument_uri : str;
  position_line : Z;
  position_character : Z
}.

Global Instance Position_eq_dec : EqDecision Position.
Proof. solve_decision. Defined.
Global Instance Range_eq_dec : EqDecision Range.
Proof. solve_decision. Defined.
Global Instance DiagnosticSeverity_eq_dec : EqDecision DiagnosticSeverity.t.
Proof. solve_decision. Defined.
Global Instance Diagnostic_eq_dec : EqDecision Diagnostic.
Proof. solve_decision. Defined.
Global Instance LSPAny_eq_dec : EqDecision LSPAny.
Proof. solve_decision. Defined.

Section Server.

(** [String.prototype.toLowerCase] of the host. *)
Variable toLowerCase : str -> str.

(** ** Similarity matcher *)

(** Body of the first loop: count the substring that starts at [i]. *)
Definition countSubstring (str1 : str) (substringLength : Z)
    (map : gmap (list N) nat) (i : nat) : gmap (list N) nat :=
  let substr1 := substr str1 i substringLength in
  <[substr1 := match map !! substr1 with
               | Some c => (c + 1)%nat
               | None => 1%nat
               end]> map.

(** Body of the second loop: consume one occurrence of the substring that
    starts at [j], if one is left. *)
Definition matchSubstring (str2 : str) (substringLength : Z)
    (st : gmap (list N) nat * nat) (j : nat) : gmap (list N) nat * nat :=
  let '(map, match_) := st in
  let substr2 := substr str2 j substringLength in
  let count := match map !! substr2 with
               | Some c => c
               | None => 0%nat
               end in
  if bool_decide (0 < count)%nat
  then (<[substr2 := (count - 1)%nat]> map, S match_)
  else (map, match_).

(** The match counter after both loops, on inputs already lower-cased. *)
Definition countMatches (str1 str2 : str) (substringLength : Z) : nat :=
  let map := foldl (countSubstring str1 substringLength) ∅
                   (upto (len str1 - (substringLength - 1))) in
  snd (foldl (matchSubstring str2 substringLength) (map, 0%nat)
             (upto (len str2 - (substringLength - 1)))).

Definition stringSimilarity (str1 str2 : str) (substringLength : Z)
    (caseSensitive : bool) : Q :=
  let str1 := if negb caseSensitive then toLowerCase str1 else str1 in
  let str2 := if negb caseSensitive then toLowerCase str2 else str2 in
  if bool_decide (len str1 < substringLength)
     || bool_decide (len str2 < substringLength)
  then 0%Q
  else
    let match_ := Z.of_nat (countMatches str1 str2 substringLength) in
    (inject_Z (match_ * 2)
     / inject_Z (len str1 + len str2 - (substringLength - 1) * 2))%Q.

(** ** Keyword directory *)

Definition knownTokens : list str := [js "characters"; js "project"].

(** [findKeyword]; [None] is the [undefined] of a scan that ends without a
    [return]. The call [stringSimilarity(word, token)] takes the default
    substring length 2 and is not case sensitive. *)
Definition findKeyword (word : str) : option str :=
  (fix scan (tokens : list str) : option str :=
     match tokens with
     | [] => None
     | token :: rest =>
         if Qlt_le_dec 0.7 (stringSimilarity word token 2 false)
         then Some token
         else scan rest
     end) knownTokens.

(** ** Document validator *)

(** The variables the callback of [letters.forEach] closes over. *)
Record ScanState := {
  diagnostics : list Diagnostic;
  offset : Z;
  formingWord : str;
  keywordMatched : bool;
  userDefinedString : bool;
  expectingSemicolon : option bool
}.

Definition initialState : ScanState :=
  {| diagnostics := []; offset := 0; formingWord := [];
     keywordMatched := false; userDefinedString := false;
     expectingSemicolon := None |}.

Definition unresolvedWord (st : ScanState) (correctedKeyword : str) : Diagnostic :=
  {| severity := DiagnosticSeverity.Error;
     range := {| start := positionAt (offset st - len (formingWord st));
                 end_ := positionAt (offset st) |};
     message := js "Cannot find '" ++ formingWord st ++ js "'. " ++
                (if bool_decide (0 < len correctedKeyword)
                 then js "Did you mean '" ++ correctedKeyword ++ js "'?"
                 else []);
     source := js "LUMA" |}.

Definition semicolonDiagnostic (st : ScanState) : Diagnostic :=
  {| severity := DiagnosticSeverity.Error;
     range := {| start := positionAt (offset st - 1);
                 end_ := positionAt (offset st) |};
     message := js "Expected ; after project name.";
     source := js "LUMA" |}.

Definition projectNameDiagnostic (st : ScanState) : Diagnostic :=
  {| severity := DiagnosticSeverity.Error;
     range := {| start := positionAt (offset st);
                 end_ := positionAt (offset st + 2) |};
     message := js "Expected project name.";
     source := js "LUMA" |}.

(** [formingWord += (!endOfWord) ? letter : ''] *)
Definition accumulate (endOfWord : bool) (letter : str) (st : ScanState) : ScanState :=
  {| diagnostics := diagnostics st; offset := offset st;
     formingWord := formingWord st ++ (if negb endOfWord then letter else []);
     keywordMatched := keywordMatched st;
     userDefinedString := userDefinedString st;
     expectingSemicolon := expectingSemicolon st |}.

(** The word-boundary block. *)
Definition wordBoundary (endOfWord : bool) (st : ScanState) : ScanState :=
  if endOfWord && bool_decide (1 < len (trim (formingWord st))) then
    let correctedKeyword := default [] (findKeyword (trim (formingWord st))) in
    let diagnostic := unresolvedWord st correctedKeyword in
    {| diagnostics :=
         if negb (keywordMatched st) && negb (userDefinedString st)
         then diagnostics st ++ [diagnostic]
         else diagnostics st;
       offset := offset st;
       formingWord := [];
       keywordMatched := false;
       userDefinedString := userDefinedString st;
       expectingSemicolon := expectingSemicolon st |}
  else st.

(** The condition [expectingSemicolon && !letters[j - 1].includes(';')];
    the right operand is evaluated only when the left one is truthy. *)
Definition semicolonMissing (letters : list str) (j : Z) (st : ScanState) : Outcome bool :=
  if truthy (expectingSemicolon st)
  then previous ← deref (index letters (j - 1));
       mret (negb (includes previous (js ";")))
  else mret false.

(** The end-of-line block, entered on a carriage return. *)
Definition endOfLine (letters : list str) (letter : str) (j : Z)
    (st : ScanState) : Outcome ScanState :=
  if bool_decide (letter = [CR])
  then
    missing ← semicolonMissing letters j st;
    mret {| diagnostics :=
              if (missing : bool)
              then diagnostics st ++ [semicolonDiagnostic st]
              else diagnostics st;
            offset := offset st;
            formingWord := formingWord st;
            keywordMatched := keywordMatched st;
            userDefinedString := false;
            expectingSemicolon := Some false |}
  else mret st.

(** [switch (formingWord)] with its single case ['project']. *)
Definition keywordSwitch (letters : list str) (j : Z) (st : ScanState) : ScanState :=
  if bool_decide (formingWord st = js "project")
  then
    {| diagnostics :=
         if looseEqNumber (len <$> index letters (j + 2)) 0
         then diagnostics st ++ [projectNameDiagnostic st]
         else diagnostics st;
       offset := offset st;
       formingWord := formingWord st;
       keywordMatched := true;
       userDefinedString := true;
       expectingSemicolon := Some true |}
  else st.

(** [offset += 1] *)
Definition advance (st : ScanState) : ScanState :=
  {| diagnostics := diagnostics st; offset := offset st + 1;
     formingWord := formingWord st;
     keywordMatched := keywordMatched st;
     userDefinedString := userDefinedString st;
     expectingSemicolon := expectingSemicolon st |}.

(** One call of the callback of [letters.forEach]. *)
Definition scanLetter (letters : list str) (st : ScanState) (letter : str) (j : Z)
    : Outcome ScanState :=
  let endOfWord :=
    bool_decide (letter = js " ")
    || bool_decide (letter = [CR])
    || bool_decide (letter = [LF]) in
  let st := accumulate endOfWord letter st in
  let st := wordBoundary endOfWord st in
  st ← endOfLine letters letter j st;
  let st := keywordSwitch letters j st in
  mret (advance st).

(** [array.forEach(callback)], from index [j] on; an exception raised by
    the callback leaves the loop. *)
Fixpoint forEachFrom {A St : Type} (callback : St -> A -> Z -> Outcome St)
    (array : list A) (j : Z) (st : St) : Outcome St :=
  match array with
  | [] => mret st
  | x :: rest =>
      st' ← callback st x j;
      forEachFrom callback rest (j + 1) st'
  end.

(** The validation pass on the settings resolved for the document. *)
Definition validateTextDocument (settings : Settings) (textDocument : TextDocument)
    : Outcome (list Diagnostic) :=
  let text := getText textDocument in
  let letters := split_chars text in
  st ← forEachFrom (scanLetter letters) letters 0 initialState;
  mret (diagnostics st).

End Server.

(** ** Completion provider *)

Definition onCompletion (_textDocumentPosition : TextDocumentPositionParams)
    : list CompletionItem :=
  [ {| label := js "characters"; kind := Some CompletionItemKind.Keyword;
       data := Some (AnyNumber 1); detail := None |};
    {| label := js "project"; kind := Some CompletionItemKind.Keyword;
       data := Some (AnyNumber 2); detail := None |} ].

Definition onCompletionResolve (item : CompletionItem) : CompletionItem :=
  if bool_decide (data item = Some (AnyNumber 1))
  then {| label := label item; kind := kind item; data := data item;
          detail := Some (js "Specifies all the characters in the project.") |}
  else item.

(** ** Session state and its handlers *)

Record WorkspaceClientCapabilities := {
  configuration : option bool;
  workspaceFolders : option bool
}.

Record PublishDiagnosticsClientCapabilities := {
  relatedInformation : option bool
}.

Record TextDocumentClientCapabilities := {
  publishDiagnostics : option PublishDiagnosticsClientCapabilities
}.

Record ClientCapabilities := {
  workspace : option WorkspaceClientCapabilities;
  textDocument : option TextDocumentClientCapabilities
}.

Record InitializeParams := { capabilities : ClientCapabilities }.

Module TextDocumentSyncKind.
Inductive t := NoSync | Full | Incremental.
End TextDocumentSyncKind.

Module DocumentDiagnosticReportKind.
Inductive t := Full | Unchanged.
End DocumentDiagnosticReportKind.

(** The server capabilities of the initialize result; the last field is
    [capabilities.workspace.workspaceFolders.supported], absent unless the
    handler adds it. *)
Record InitializeResult := {
  textDocumentSync : TextDocumentSyncKind.t;
  completionProvider_resolveProvider : bool;
  diagnosticProvider_interFileDependencies : bool;
  diagnosticProvider_workspaceDiagnostics : bool;
  workspace_workspaceFolders_supported : option bool
}.

Record DocumentDiagnosticReport := {
  reportKind : DocumentDiagnosticReportKind.t;
  items : list Diagnostic
}.

(** What the server asks of the connection. *)
Inductive Request :=
| RegisterDidChangeConfiguration
| OnDidChangeWorkspaceFolders
| DiagnosticsRefresh
| GetConfiguration (scopeUri section : str).

(** A pending settings value: [Promise.resolve(value)], or the promise
    that [connection.workspace.getConfiguration] returned for the request
    at position [id] of the log of requests. *)
Inductive Thenable :=
| PromiseResolve (value : Settings)
| ConfigurationRequest (id : nat).

(** The module-level variables of the server, and the log of the requests
    sent over the connection, oldest first. *)
Record ServerState := {
  hasConfigurationCapability : bool;
  hasWorkspaceFolderCapability : bool;
  hasDiagnosticRelatedInformationCapability : bool;
  globalSettings : Settings;
  documentSettings : gmap (list N) Thenable;
  sent : list Request
}.

Definition startState : ServerState :=
  {| hasConfigurationCapability := false;
     hasWorkspaceFolderCapability := false;
     hasDiagnosticRelatedInformationCapability := false;
     globalSettings := defaultSettings;
     documentSettings := ∅;
     sent := [] |}.

(** [connection.<request>(...)]: append to the log. *)
Definition send (r : Request) (st : ServerState) : ServerState :=
  {| hasConfigurationCapability := hasConfigurationCapability st;
     hasWorkspaceFolderCapability := hasWorkspaceFolderCapability st;
     hasDiagnosticRelatedInformationCapability :=
       hasDiagnosticRelatedInformationCapability st;
     globalSettings := globalSettings st;
     documentSettings := documentSettings st;
     sent := sent st ++ [r] |}.

Definition setDocumentSettings (m : gmap (list N) Thenable) (st : ServerState)
    : ServerState :=
  {| hasConfigurationCapability := hasConfigurationCapability st;
     hasWorkspaceFolderCapability := hasWorkspaceFolderCapability st;
     hasDiagnosticRelatedInformationCapability :=
       hasDiagnosticRelatedInformationCapability st;
     globalSettings := globalSettings st;
     documentSettings := m;
     sent := sent st |}.

Definition setGlobalSettings (s : Settings) (st : ServerState) : ServerState :=
  {| hasConfigurationCapability := hasConfigurationCapability st;
     hasWorkspaceFolderCapability := hasWorkspaceFolderCapability st;
     hasDiagnosticRelatedInformationCapability :=
       hasDiagnosticRelatedInformationCapability st;
     globalSettings := s;
     documentSettings := documentSettings st;
     sent := sent st |}.

Definition onInitialize (params : InitializeParams) (st : ServerState)
    : ServerState * InitializeResult :=
  let capabilities := capabilities params in
  let st :=
    {| hasConfigurationCapability :=
         match workspace capabilities with
         | Some w => truthy (configuration w)
         | None => false
         end;
       hasWorkspaceFolderCapability :=
         match workspace capabilities with
         | Some w => truthy (workspaceFolders w)
         | None => false
         end;
       hasDiagnosticRelatedInformationCapability :=
         match textDocument capabilities with
         | Some t =>
             match publishDiagnostics t with
             | Some p => truthy (relatedInformation p)
             | None => false
             end
         | None => false
         end;
       globalSettings := globalSettings st;
       documentSettings := documentSettings st;
       sent := sent st |} in
  (st,
   {| textDocumentSync := TextDocumentSyncKind.Incremental;
      completionProvider_resolveProvider := true;
      diagnosticProvider_interFileDependencies := false;
      diagnosticProvider_workspaceDiagnostics := false;
      workspace_workspaceFolders_supported :=
        if hasWorkspaceFolderCapability st then Some true else None |}).

Definition onInitialized (st : ServerState) : ServerState :=
  let st := if hasConfigurationCapability st
            then send RegisterDidChangeConfiguration st else st in
  if hasWorkspaceFolderCapability st
  then send OnDidChangeWorkspaceFolders st else st.

(** The [settings] of a configuration change: [None] when the client
    sends [null], otherwise an object whose [luma] section may be absent. *)
Record ConfigurationSettings := { luma : option Settings }.

Record DidChangeConfigurationParams := {
  settings : option ConfigurationSettings
}.

Definition onDidChangeConfiguration (change : DidChangeConfigurationParams)
    (st : ServerState) : Outcome ServerState :=
  st ← (if hasConfigurationCapability st
        then mret (setDocumentSettings ∅ st)
        else section ← deref (settings change);
             mret (setGlobalSettings (default defaultSettings (luma section)) st));
  mret (send DiagnosticsRefresh st).

Definition getDocumentSettings (resource : str) (st : ServerState)
    : ServerState * Thenable :=
  if negb (hasConfigurationCapability st)
  then (st, PromiseResolve (globalSettings st))
  else
    match documentSettings st !! resource with
    | Some result => (st, result)
    | None =>
        let result := ConfigurationRequest (length (sent st)) in
        let st := send (GetConfiguration resource (js "luma")) st in
        (setDocumentSettings (<[resource := result]> (documentSettings st)) st,
         result)
    end.

(** [documents.onDidClose] *)
Definition onDidClose (document : TextDocument) (st : ServerState) : ServerState :=
  setDocumentSettings (delete (uri document) (documentSettings st)) st.

(** [await] of a settings value, given the answers [client] of the editor
    to the configuration requests. *)
Definition await (client : nat -> Settings) (t : Thenable) : Settings :=
  match t with
  | PromiseResolve value => value
  | ConfigurationRequest id => client id
  end.

Section Session.

Variable toLowerCase : str -> str.

(** The answers of the editor to the configuration requests, by position
    in the log. *)
Variable client : nat -> Settings.

(** [validateTextDocument] with the settings lookup it starts with. *)
Definition validateOpenDocument (document : TextDocument) (st : ServerState)
    : ServerState * Outcome (list Diagnostic) :=
  let '(st, pending) := getDocumentSettings (uri document) st in
  (st, validateTextDocument toLowerCase (await client pending) document).

(** [connection.languages.diagnostics.on]; [documents] holds the open
    documents by uri. *)
Definition onDiagnostics (documents : gmap (list N) TextDocument)
    (requested : str) (st : ServerState)
    : ServerState * Outcome DocumentDiagnosticReport :=
  match documents !! requested with
  | Some document =>
      let '(st, result) := validateOpenDocument document st in
      (st, items ← result;
           mret {| reportKind := DocumentDiagnosticReportKind.Full;
                   items := items |})
  | None =>
      (st, mret {| reportKind := DocumentDiagnosticReportKind.Full;
                   items := [] |})
  end.

(** [documents.onDidChangeContent]: the diagnostics are discarded. *)
Definition onDidChangeContent (document : TextDocument) (st : ServerState)
    : ServerState :=
  fst (validateOpenDocument document st).

End Session.

(** ** Inputs of the examples *)

(** An open document that holds [text]. *)
Definition lotusDocument (text : str) : TextDocument :=
  {| uri := js "file:///game.lotus"; getText := text |}.

(** ** Vocabulary of the properties *)

(** Number of occurrences a map of counters still holds. *)
Definition total (map : gmap (list N) nat) : nat :=
  map_fold (fun _ c acc => (c + acc)%nat) 0%nat map.

(** The counter of a key, 0 when the key is absent. *)
Definition avail (map : gmap (list N) nat) (k : list N) : nat :=
  match map !! k with
  | Some c => c
  | None => 0%nat
  end.

(** Occurrences of [k] among the substrings of [s] that start at the
    indices [l]. *)
Definition occ (s : list N) (n : Z) (k : list N) (l : list nat) : nat :=
  length (filter (fun i => substr s i n = k) l).

(** A scan state in which only [expectingSemicolon] is set. *)
Definition armedState : ScanState :=
  {| diagnostics := []; offset := 0; formingWord := [];
     keywordMatched := false; userDefinedString := false;
     expectingSemicolon := Some true |}.

Definition semicolonMessage : str := js "Expected ; after project name.".
Definition projectNameMessage : str := js "Expected project name.".

(** The diagnostics a pass over [text] can hold: unresolved words, and
    missing terminators provided [text] has a carriage return. *)
Definition allowed (text : str) (d : Diagnostic) : Prop :=
  js "Cannot find '" `prefix_of` message d \/
  (message d = semicolonMessage /\ CR ∈ text).

(** Invariant of the scan when [k] letters have been accumulated. *)
Definition scanInvariant (text : str) (k : nat) (st : ScanState) : Prop :=
  (length (formingWord st) <= k)%nat /\
  (expectingSemicolon st = Some true -> (7 <= k)%nat) /\
  Forall (allowed text) (diagnostics st).

(** A diagnostic is an unresolved word when its message starts with
    "Cannot find '". *)
Definition isUnresolvedWord (d : Diagnostic) : bool :=
  bool_decide (js "Cannot find '" `prefix_of` message d).

(** The missing-terminator diagnostic raised at offset [offset]. *)
Definition semicolonDiagnosticAt (offset : Z) : Diagnostic :=
  {| severity := DiagnosticSeverity.Error;
     range := {| start := positionAt (offset - 1); end_ := positionAt offset |};
     message := semicolonMessage;
     source := js "LUMA" |}.

(** The length-[n] substrings that a loop of [stringSimilarity] visits in
    [s], in the order of the loop. *)
Definition substrings (s : str) (n : Z) : list str :=
  (fun i => substr s i n) <$> upto (len s - (n - 1)).

(** The same substrings as a multiset. *)
Definition ngrams (s : str) (n : Z) : gmultiset (list N) :=
  list_to_set_disj (substrings s n).

(** A map of counters holds the multiset [M]. *)
Definition represents (map : gmap (list N) nat) (M : gmultiset (list N)) : Prop :=
  forall k, avail map k = multiplicity k M.

(** The offset a position was computed from. *)
Definition offsetOf (p : Position) : Z :=
  match p with
  | positionAt offset => offset
  end.

Definition startOffset (d : Diagnostic) : Z := offsetOf (start (range d)).
Definition endOffset (d : Diagnostic) : Z := offsetOf (end_ (range d)).

Definition SPACE : N := 32.
Definition SEMICOLON : N := 59.

(** The code units that end a word: space, carriage return, line feed. *)
Definition isSeparator (c : N) : bool :=
  bool_decide (c = SPACE) || bool_decide (c = CR) || bool_decide (c = LF).

(** The accumulator after the callback has met the code unit [c]: a
    separator empties it when it holds more than one code unit after
    trimming, and leaves it as it is otherwise. *)
Definition nextWord (st : ScanState) (c : N) : str :=
  if isSeparator c
  then if bool_decide (1 < len (trim (formingWord st))) then [] else formingWord st
  else formingWord st ++ [c].

(** The unresolved word that the callback pushes when it meets the code
    unit [c] in the state [st]: the word accumulated so far, at a
    separator and outside a project declaration. *)
Definition wordPush (toLowerCase : str -> str) (st : ScanState) (c : N)
    : list Diagnostic :=
  if isSeparator c && bool_decide (1 < len (trim (formingWord st)))
     && negb (keywordMatched st) && negb (userDefinedString st)
  then [unresolvedWord st
          (default [] (findKeyword toLowerCase (trim (formingWord st))))]
  else [].

(** The missing terminator that the callback pushes at a carriage return
    when [expectingSemicolon] is set and no semicolon precedes. *)
Definition semicolonPush (text : str) (st : ScanState) (c : N) : list Diagnostic :=
  if bool_decide (c = CR) && truthy (expectingSemicolon st)
     && negb (bool_decide (index text (offset st - 1) = Some SEMICOLON))
  then [semicolonDiagnosticAt (offset st)]
  else [].

(** * Properties *)

(** ** Similarity matcher *)

Lemma total_lookup map k c :
  map !! k = Some c -> total map = (c + total (delete k map))%nat.
Proof.
  intros Hk. unfold total.
  apply (map_fold_delete_L (fun _ c acc => (c + acc)%nat)); [|done].
  intros. lia.
Qed.

Lemma total_insert_fresh map k c :
  map !! k = None -> total (<[k:=c]> map) = (c + total map)%nat.
Proof.
  intros Hk. unfold total.
  apply (map_fold_insert_L (fun _ c acc => (c + acc)%nat)); [|done].
  intros. lia.
Qed.

Lemma total_insert map k c :
  (total (<[k:=c]> map) + avail map k = c + total map)%nat.
Proof.
  unfold avail. destruct (map !! k) as [c0|] eqn:Hk; simpl.
  - rewrite (total_lookup map k c0 Hk).
    rewrite <- (insert_delete_eq map k c).
    rewrite total_insert_fresh by apply lookup_delete_eq. lia.
  - rewrite total_insert_fresh by done. lia.
Qed.

Lemma avail_insert map k c k' :
  avail (<[k:=c]> map) k' = if decide (k = k') then c else avail map k'.
Proof.
  unfold avail. rewrite lookup_insert. by destruct (decide (k = k')).
Qed.

Section Similarity.

Variables (s : list N) (n : Z).

Lemma occ_cons k i l :
  occ s n k (i :: l) = ((if decide (substr s i n = k) then 1 else 0) + occ s n k l)%nat.
Proof.
  unfold occ. rewrite filter_cons. by destruct (decide (substr s i n = k)).
Qed.

Lemma countSubstring_total map i :
  total (countSubstring s n map i) = S (total map).
Proof.
  unfold countSubstring.
  pose proof (total_insert map (substr s i n)
    (match map !! substr s i n with Some c => (c + 1)%nat | None => 1%nat end)) as H.
  unfold avail in H. destruct (map !! substr s i n); simpl in H; lia.
Qed.

Lemma countSubstring_avail map i k :
  avail (countSubstring s n map i) k =
  ((if decide (substr s i n = k) then 1 else 0) + avail map k)%nat.
Proof.
  unfold countSubstring. rewrite avail_insert.
  destruct (decide (substr s i n = k)) as [->|]; [|done].
  unfold avail. destruct (map !! k); simpl; lia.
Qed.

Lemma count_loop_total l map :
  total (foldl (countSubstring s n) map l) = (total map + length l)%nat.
Proof.
  revert map. induction l as [|i l IH]; intros map; simpl; [lia|].
  rewrite IH, countSubstring_total. lia.
Qed.

Lemma count_loop_avail l map k :
  avail (foldl (countSubstring s n) map l) k = (avail map k + occ s n k l)%nat.
Proof.
  revert map. induction l as [|i l IH]; intros map; simpl.
  - unfold occ. simpl. lia.
  - rewrite IH, countSubstring_avail, occ_cons. lia.
Qed.

Lemma matchSubstring_step map c j :
  let r := matchSubstring s n (map, c) j in
  (snd r + total (fst r) = c + total map)%nat /\ (c <= snd r <= S c)%nat.
Proof.
  unfold matchSubstring. set (k := substr s j n). fold (avail map k).
  pose proof (total_insert map k (avail map k - 1)) as Hins.
  case_bool_decide; simpl; lia.
Qed.

(** The second loop moves occurrences from the map to the counter, at
    most one per substring visited. *)
Lemma match_loop_bounds l map c :
  let r := foldl (matchSubstring s n) (map, c) l in
  (snd r + total (fst r) = c + total map)%nat /\ (snd r <= c + length l)%nat.
Proof.
  revert map c. induction l as [|j l IH]; intros map c; cbn [foldl length]; [simpl; lia|].
  pose proof (matchSubstring_step map c j) as Hstep.
  destruct (matchSubstring s n (map, c) j) as [map' c'].
  specialize (IH map' c'). simpl in *. lia.
Qed.

Lemma matchSubstring_hit map c j :
  (0 < avail map (substr s j n))%nat ->
  matchSubstring s n (map, c) j =
  (<[substr s j n := (avail map (substr s j n) - 1)%nat]> map, S c).
Proof.
  intros Hpos. unfold matchSubstring. fold (avail map (substr s j n)).
  by rewrite bool_decide_true.
Qed.

(** When every substring to visit is still available, each visit is a
    match. *)
Lemma match_loop_all l map c :
  (forall k, occ s n k l <= avail map k)%nat ->
  snd (foldl (matchSubstring s n) (map, c) l) = (c + length l)%nat.
Proof.
  revert map c. induction l as [|j l IH]; intros map c Hav;
    cbn [foldl length]; [simpl; lia|].
  set (k := substr s j n).
  pose proof (Hav k) as Hk. rewrite occ_cons in Hk. fold k in Hk.
  rewrite decide_True in Hk by done.
  rewrite matchSubstring_hit by (fold k; lia). fold k.
  rewrite IH; [lia|].
  intros k'. rewrite avail_insert.
  specialize (Hav k'). rewrite occ_cons in Hav. fold k in Hav.
  destruct (decide (k = k')) as [Heq|]; [rewrite <- Heq in Hav |- *|]; lia.
Qed.

End Similarity.

Lemma total_empty : total ∅ = 0%nat.
Proof. unfold total. apply map_fold_empty. Qed.

Lemma upto_length bound : length (upto bound) = Z.to_nat bound.
Proof. unfold upto. by rewrite length_seq. Qed.

(** The match counter is bounded by the number of substrings of either
    input. *)
Lemma countMatches_bounds str1 str2 n :
  (countMatches str1 str2 n <= Z.to_nat (len str1 - (n - 1)))%nat /\
  (countMatches str1 str2 n <= Z.to_nat (len str2 - (n - 1)))%nat.
Proof.
  unfold countMatches.
  set (map := foldl (countSubstring str1 n) ∅ (upto (len str1 - (n - 1)))).
  destruct (match_loop_bounds str2 n (upto (len str2 - (n - 1))) map 0) as [Hsum Hlen].
  rewrite upto_length in Hlen.
  assert (total map = Z.to_nat (len str1 - (n - 1))) as Htot.
  { unfold map. rewrite count_loop_total, total_empty, upto_length. lia. }
  split; lia.
Qed.

(** Comparing a string with itself, every substring is matched. *)
Lemma countMatches_self s n :
  countMatches s s n = Z.to_nat (len s - (n - 1)).
Proof.
  unfold countMatches. rewrite match_loop_all.
  - rewrite upto_length. lia.
  - intros k. rewrite count_loop_avail. lia.
Qed.

Lemma len_nonneg {A} (l : list A) : 0 <= len l.
Proof. unfold len. lia. Qed.

Lemma asciiLowerCase_length s : length (asciiLowerCase s) = length s.
Proof. unfold asciiLowerCase. apply length_fmap. Qed.

(** The quotient of the source for inputs that are long enough. *)
Lemma stringSimilarity_quotient (toLowerCase : str -> str) (str1 str2 : str)
    (n : Z) (caseSensitive : bool) :
  let a := if caseSensitive then str1 else toLowerCase str1 in
  let b := if caseSensitive then str2 else toLowerCase str2 in
  n <= len a -> n <= len b ->
  stringSimilarity toLowerCase str1 str2 n caseSensitive =
  (inject_Z (Z.of_nat (countMatches a b n) * 2)
   / inject_Z (len a + len b - (n - 1) * 2))%Q.
Proof.
  intros a b Ha Hb. unfold stringSimilarity.
  destruct caseSensitive; simpl; fold a b;
    rewrite (bool_decide_false (len a < n)), (bool_decide_false (len b < n)) by lia;
    reflexivity.
Qed.

Lemma stringSimilarity_short (toLowerCase : str -> str) (str1 str2 : str)
    (n : Z) (caseSensitive : bool) :
  let a := if caseSensitive then str1 else toLowerCase str1 in
  let b := if caseSensitive then str2 else toLowerCase str2 in
  len a < n \/ len b < n ->
  stringSimilarity toLowerCase str1 str2 n caseSensitive = 0%Q.
Proof.
  intros a b Hshort. unfold stringSimilarity.
  destruct caseSensitive; simpl; fold a b;
    (destruct Hshort;
     [rewrite (bool_decide_true (len a < n)) by done; reflexivity
     |rewrite (bool_decide_true (len b < n)) by done;
      by rewrite orb_true_r]).
Qed.

(** C8: for every pair of strings and every substring length [n >= 1],
    [stringSimilarity] returns a score in [[0, 1]]: the score is 0 when an
    input, after the optional lower-casing, is shorter than [n]; otherwise
    the match counter exceeds the number of length-[n] substrings of
    neither input, so twice the counter is at most
    [len str1 + len str2 - 2 * (n - 1)], the divisor of the score. *)
Theorem stringSimilarity_range (toLowerCase : str -> str) (str1 str2 : str)
    (n : Z) (caseSensitive : bool) :
  1 <= n ->
  let a := if caseSensitive then str1 else toLowerCase str1 in
  let b := if caseSensitive then str2 else toLowerCase str2 in
  let score := stringSimilarity toLowerCase str1 str2 n caseSensitive in
  (0 <= score <= 1)%Q /\
  (len a < n \/ len b < n -> score = 0%Q) /\
  (n <= len a -> n <= len b ->
   Z.of_nat (countMatches a b n) <= len a - n + 1 /\
   Z.of_nat (countMatches a b n) <= len b - n + 1 /\
   2 * Z.of_nat (countMatches a b n) <= len a + len b - 2 * (n - 1) /\
   score = (inject_Z (Z.of_nat (countMatches a b n) * 2)
            / inject_Z (len a + len b - (n - 1) * 2))%Q).
Proof.
  intros Hn a b score.
  assert (n <= len a -> n <= len b ->
          Z.of_nat (countMatches a b n) <= len a - n + 1 /\
          Z.of_nat (countMatches a b n) <= len b - n + 1) as Hcount.
  { intros Ha Hb. destruct (countMatches_bounds a b n). lia. }
  split; [|split].
  - destruct (decide (len a < n \/ len b < n)) as [Hshort|Hlong].
    + unfold score.
      rewrite (stringSimilarity_short toLowerCase str1 str2 n caseSensitive Hshort).
      split; discriminate.
    + assert (n <= len a) as Ha by lia. assert (n <= len b) as Hb by lia.
      destruct (Hcount Ha Hb) as [H1 H2].
      unfold score.
      rewrite (stringSimilarity_quotient toLowerCase str1 str2 n caseSensitive Ha Hb).
      fold a b.
      assert (0 < inject_Z (len a + len b - (n - 1) * 2))%Q as Hden.
      { rewrite <- (Zlt_Qlt 0). lia. }
      split.
      * apply Qle_shift_div_l; [done|].
        rewrite Qmult_0_l. rewrite <- (Zle_Qle 0). lia.
      * apply Qle_shift_div_r; [done|].
        rewrite Qmult_1_l. rewrite <- Zle_Qle. lia.
  - intros Hshort. apply (stringSimilarity_short toLowerCase str1 str2 n caseSensitive Hshort).
  - intros Ha Hb. destruct (Hcount Ha Hb) as [H1 H2].
    repeat split; [done|done|lia|].
    apply (stringSimilarity_quotient toLowerCase str1 str2 n caseSensitive Ha Hb).
Qed.

Lemma stringSimilarity_range_witness :
  let score := stringSimilarity asciiLowerCase (js "Night") (js "nacht") 2 false in
  (0 <= score <= 1)%Q /\ score = (inject_Z (1 * 2) / inject_Z (5 + 5 - (2 - 1) * 2))%Q.
Proof.
  destruct (stringSimilarity_range asciiLowerCase (js "Night") (js "nacht") 2 false)
    as (Hrange & _ & Hlong); [lia|].
  split; [exact Hrange|].
  destruct Hlong as (_ & _ & _ & Hscore); [vm_compute; discriminate ..|].
  exact Hscore.
Defined.

(** C9: for every string [s] at least as long as the substring length
    [n], [stringSimilarity(s, s, n)] is 1: every length-[n] substring of
    [s] is consumed once from the map built from [s] itself, so the match
    counter is [len s - n + 1] and the score is
    [2 * (len s - n + 1) / (2 * len s - 2 * (n - 1))]. The lower-casing of
    the host is taken not to shorten a string. *)
Theorem stringSimilarity_self (toLowerCase : str -> str) (s : str) (n : Z)
    (caseSensitive : bool) :
  (forall x : str, len x <= len (toLowerCase x)) ->
  n <= len s ->
  let s' := if caseSensitive then s else toLowerCase s in
  Z.of_nat (countMatches s' s' n) = len s' - n + 1 /\
  (stringSimilarity toLowerCase s s n caseSensitive == 1)%Q.
Proof.
  intros Hlower Hn s'.
  assert (n <= len s') as Hn'.
  { unfold s'. destruct caseSensitive; [done|]. specialize (Hlower s). lia. }
  rewrite countMatches_self. split; [lia|].
  rewrite (stringSimilarity_quotient toLowerCase s s n caseSensitive Hn' Hn').
  fold s'. rewrite countMatches_self.
  unfold Qeq, Qdiv, Qmult, Qinv, inject_Z. simpl.
  destruct (len s' + len s' - (n - 1) * 2) as [|d|d] eqn:Hd; [lia| |lia].
  simpl. lia.
Qed.

Lemma stringSimilarity_self_witness :
  (stringSimilarity asciiLowerCase (js "Project") (js "Project") 2 false == 1)%Q.
Proof.
  apply (stringSimilarity_self asciiLowerCase (js "Project") 2 false).
  - intros x. unfold len. rewrite asciiLowerCase_length. lia.
  - vm_compute. discriminate.
Defined.

(** ** Document validator *)

(** [forEach] preserves an invariant indexed by the position reached, and
    it raises nothing when the callback raises nothing under the
    invariant. *)
Lemma forEachFrom_invariant {A St : Type} (callback : St -> A -> Z -> Outcome St)
    (array : list A) (I : nat -> St -> Prop) :
  (forall k x st, array !! k = Some x -> I k st ->
     exists st', callback st x (Z.of_nat k) = Return st' /\ I (S k) st') ->
  forall rest k st, drop k array = rest -> I k st ->
  exists st', forEachFrom callback rest (Z.of_nat k) st = Return st' /\
              I (k + length rest)%nat st'.
Proof.
  intros Hstep rest. induction rest as [|x rest IH]; intros k st Hdrop HI.
  - exists st. split; [done|]. simpl. by rewrite Nat.add_0_r.
  - assert (array !! k = Some x) as Hk.
    { pose proof (lookup_drop array k 0) as H.
      rewrite Hdrop, Nat.add_0_r in H. done. }
    destruct (Hstep k x st Hk HI) as (st1 & Hcall & HI1).
    destruct (IH (S k) st1) as (st' & Hrun & HI'); [|done|].
    { rewrite (drop_S _ _ _ Hk) in Hdrop. congruence. }
    exists st'. cbn [forEachFrom]. rewrite Hcall. simpl.
    replace (Z.of_nat k + 1) with (Z.of_nat (S k)) by lia.
    split; [done|]. simpl. by rewrite Nat.add_succ_r.
Qed.

Lemma split_chars_lookup text k x :
  split_chars text !! k = Some x -> exists c, text !! k = Some c /\ x = [c].
Proof.
  unfold split_chars. rewrite list_lookup_fmap.
  destruct (text !! k) as [c|]; [|done]. intros [= <-]. by exists c.
Qed.

(** Every element of [text.split('')] has length 1, and [undefined] is
    not loosely equal to 0: the guard of the "Expected project name."
    diagnostic is false at every index. *)
Lemma projectName_guard_false text (j : Z) :
  looseEqNumber (len <$> index (split_chars text) j) 0 = false.
Proof.
  unfold index. destruct (j <? 0); [done|].
  destruct (split_chars text !! Z.to_nat j) as [x|] eqn:Hx; [|done].
  apply split_chars_lookup in Hx as (c & _ & ->). done.
Qed.

Lemma index_in_range {A} (l : list A) (i : Z) :
  0 <= i < len l -> is_Some (index l i).
Proof.
  intros Hi. unfold index, len in *.
  destruct (i <? 0) eqn:Hneg; [lia|].
  apply lookup_lt_is_Some. lia.
Qed.

(** The callback does raise when it meets a carriage return at index 0
    with [expectingSemicolon] set: [letters[-1]] is [undefined]. The scan
    never reaches that state, as the invariant below shows. *)
Lemma scanLetter_raises_if_armed_at_start :
  scanLetter asciiLowerCase (split_chars [CR; LF]) armedState [CR] 0
  = Throw TypeError.
Proof. reflexivity. Qed.

Section Validator.

Variable toLowerCase : str -> str.
Variable text : str.

Lemma accumulate_invariant endOfWord c k st :
  scanInvariant text k st ->
  scanInvariant text (S k) (accumulate endOfWord [c] st).
Proof.
  intros (Hfw & Hexp & Hds). unfold scanInvariant, accumulate. simpl.
  split; [|split; [|done]].
  - rewrite length_app. destruct endOfWord; simpl; lia.
  - intros H. specialize (Hexp H). lia.
Qed.

Lemma wordBoundary_invariant endOfWord k st :
  scanInvariant text k st ->
  scanInvariant text k (wordBoundary toLowerCase endOfWord st).
Proof.
  intros (Hfw & Hexp & Hds). unfold wordBoundary.
  destruct (endOfWord && _); [|done].
  unfold scanInvariant. simpl. split; [lia|]. split; [done|].
  destruct (negb _ && negb _); [|done].
  apply Forall_app. split; [done|]. apply Forall_singleton.
  left. simpl. by eexists.
Qed.

Lemma endOfLine_invariant c k st :
  text !! k = Some c ->
  scanInvariant text (S k) st ->
  exists st', endOfLine (split_chars text) [c] (Z.of_nat k) st = Return st' /\
              scanInvariant text (S k) st'.
Proof.
  intros Hc (Hfw & Hexp & Hds). unfold endOfLine.
  case_bool_decide as Hcr; [|by exists st].
  assert (c = CR) as -> by (by injection Hcr).
  assert (CR ∈ text) as Hin by (by eapply list_elem_of_lookup_2).
  assert (exists missing,
    semicolonMissing (split_chars text) (Z.of_nat k) st = Return missing)
    as [missing ->].
  { unfold semicolonMissing.
    destruct (expectingSemicolon st) as [[|]|] eqn:He; simpl; eauto.
    specialize (Hexp eq_refl).
    destruct (index_in_range (split_chars text) (Z.of_nat k - 1)) as [x ->].
    - apply lookup_lt_Some in Hc. unfold len, split_chars.
      rewrite length_fmap. lia.
    - simpl. eauto. }
  eexists. split; [done|].
  unfold scanInvariant. simpl. split; [done|]. split; [done|].
  destruct missing; [|done].
  apply Forall_app. split; [done|]. apply Forall_singleton. by right.
Qed.

Lemma keywordSwitch_invariant (j : Z) k st :
  scanInvariant text k st ->
  scanInvariant text k (keywordSwitch (split_chars text) j st).
Proof.
  intros (Hfw & Hexp & Hds). unfold keywordSwitch.
  case_bool_decide as Hproject; [|done].
  rewrite projectName_guard_false.
  unfold scanInvariant. simpl. split; [done|]. split; [|done].
  intros _. rewrite Hproject in Hfw. simpl in Hfw. lia.
Qed.

Lemma scanLetter_invariant k x st :
  split_chars text !! k = Some x ->
  scanInvariant text k st ->
  exists st', scanLetter toLowerCase (split_chars text) st x (Z.of_nat k) = Return st' /\
              scanInvariant text (S k) st'.
Proof.
  intros Hx HI. apply split_chars_lookup in Hx as (c & Hc & ->).
  unfold scanLetter.
  set (endOfWord := _ || _ || _).
  pose proof (wordBoundary_invariant endOfWord _ _
                (accumulate_invariant endOfWord c _ _ HI)) as HI2.
  destruct (endOfLine_invariant c k _ Hc HI2) as (st3 & -> & HI3).
  eexists. split; [done|].
  apply (keywordSwitch_invariant (Z.of_nat k)) in HI3.
  destruct HI3 as (? & ? & ?). done.
Qed.

Lemma initialState_invariant : scanInvariant text 0 initialState.
Proof. unfold scanInvariant, initialState. simpl. split; [lia|]. split; [done|]. constructor. Qed.

(** The scan of any prefix of the letters returns a state, and the
    invariant holds of it. *)
Lemma scan_prefix_invariant (j : nat) :
  exists st,
    forEachFrom (scanLetter toLowerCase (split_chars text))
                (take j (split_chars text)) 0 initialState = Return st /\
    scanInvariant text (length (take j (split_chars text))) st.
Proof.
  apply (forEachFrom_invariant (scanLetter toLowerCase (split_chars text))
           (take j (split_chars text)) (scanInvariant text)
           (fun k x st Hk => scanLetter_invariant k x st
              (proj1 (proj1 (lookup_take_Some _ _ _ _) Hk)))
           _ 0%nat initialState eq_refl initialState_invariant).
Qed.

Lemma scan_invariant :
  exists st,
    forEachFrom (scanLetter toLowerCase (split_chars text))
                (split_chars text) 0 initialState = Return st /\
    Forall (allowed text) (diagnostics st).
Proof.
  destruct (scan_prefix_invariant (length (split_chars text))) as (st & Hrun & HI).
  rewrite firstn_all in Hrun. exists st. split; [done|]. apply HI.
Qed.

End Validator.

Lemma unresolved_not_semicolon (m : str) :
  js "Cannot find '" `prefix_of` m -> m <> semicolonMessage.
Proof. intros [rest ->] Heq. vm_compute in Heq. discriminate. Qed.

Lemma unresolved_not_projectName (m : str) :
  js "Cannot find '" `prefix_of` m -> m <> projectNameMessage.
Proof. intros [rest ->] Heq. vm_compute in Heq. discriminate. Qed.

Lemma semicolon_not_projectName : semicolonMessage <> projectNameMessage.
Proof. vm_compute. discriminate. Qed.

(** The pass returns the diagnostics of the final scan state, all of them
    allowed ones. *)
Lemma validateTextDocument_allowed (toLowerCase : str -> str)
    (settings : Settings) (textDocument : TextDocument) :
  exists ds,
    validateTextDocument toLowerCase settings textDocument = Return ds /\
    Forall (allowed (getText textDocument)) ds.
Proof.
  destruct (scan_invariant toLowerCase (getText textDocument)) as (st & Hrun & Hds).
  exists (diagnostics st). unfold validateTextDocument.
  rewrite Hrun. done.
Qed.

(** C4: for every text without a carriage return, the pass emits no
    diagnostic with message 'Expected ; after project name.'. *)
Theorem lineFeedOnly_no_semicolonDiagnostic (toLowerCase : str -> str)
    (settings : Settings) (textDocument : TextDocument) :
  CR ∉ getText textDocument ->
  exists ds,
    validateTextDocument toLowerCase settings textDocument = Return ds /\
    Forall (fun d => message d <> semicolonMessage) ds.
Proof.
  intros Hcr.
  destruct (validateTextDocument_allowed toLowerCase settings textDocument)
    as (ds & Hrun & Hds).
  exists ds. split; [done|].
  eapply Forall_impl; [exact Hds|].
  intros d [Hword|[_ Hin]]; [by apply unresolved_not_semicolon | done].
Qed.

Lemma lineFeedOnly_no_semicolonDiagnostic_witness :
  exists ds,
    validateTextDocument asciiLowerCase defaultSettings
      (lotusDocument (js "project MyGame" ++ [LF])) = Return ds /\
    Forall (fun d => message d <> semicolonMessage) ds.
Proof.
  apply (lineFeedOnly_no_semicolonDiagnostic asciiLowerCase defaultSettings
           (lotusDocument (js "project MyGame" ++ [LF]))).
  apply (bool_decide_unpack _). vm_compute. exact I.
Defined.

(** C5: for every text, the pass emits no diagnostic with message
    'Expected project name.': the length of [letters[j + 2]] is 1 when the
    element exists and [undefined] otherwise, never 0, so the guard of
    that diagnostic is false at every index. *)
Theorem projectNameDiagnostic_never_emitted (toLowerCase : str -> str)
    (settings : Settings) (textDocument : TextDocument) :
  (forall j : Z,
     looseEqNumber (len <$> index (split_chars (getText textDocument)) (j + 2)) 0
     = false) /\
  exists ds,
    validateTextDocument toLowerCase settings textDocument = Return ds /\
    Forall (fun d => message d <> projectNameMessage) ds.
Proof.
  split; [intros j; apply projectName_guard_false|].
  destruct (validateTextDocument_allowed toLowerCase settings textDocument)
    as (ds & Hrun & Hds).
  exists ds. split; [done|].
  eapply Forall_impl; [exact Hds|].
  intros d [Hword|[Hmsg _]]; [by apply unresolved_not_projectName|].
  rewrite Hmsg. apply semicolon_not_projectName.
Qed.

(** C6: for every text and every settings value the pass raises nothing
    and returns a list of diagnostics. The scan reaches every index [j] of
    the letters, and when [expectingSemicolon] is true on entry to the
    callback at [j] then [j >= 7] and [letters[j - 1]] exists; the access
    [letters[j + 2]] is an optional one. *)
Theorem validateTextDocument_total (toLowerCase : str -> str)
    (settings : Settings) (textDocument : TextDocument) :
  let letters := split_chars (getText textDocument) in
  (exists ds, validateTextDocument toLowerCase settings textDocument = Return ds) /\
  (forall j : nat, (j < length letters)%nat ->
     exists st,
       forEachFrom (scanLetter toLowerCase letters) (take j letters) 0
                   initialState = Return st /\
       (expectingSemicolon st = Some true ->
        (7 <= j)%nat /\ is_Some (index letters (Z.of_nat j - 1)))).
Proof.
  intros letters. split.
  - destruct (validateTextDocument_allowed toLowerCase settings textDocument)
      as (ds & Hrun & _). by exists ds.
  - intros j Hj.
    destruct (scan_prefix_invariant toLowerCase (getText textDocument) j)
      as (st & Hrun & (_ & Hexp & _)).
    exists st. split; [exact Hrun|].
    intros He. specialize (Hexp He). rewrite length_take in Hexp.
    split; [lia|].
    apply index_in_range. unfold len. fold letters. lia.
Qed.

Lemma validateTextDocument_total_witness :
  (7 <= 8)%nat /\
  is_Some (index (split_chars (js "project;" ++ [CR; LF])) (Z.of_nat 8 - 1)).
Proof.
  destruct (validateTextDocument_total asciiLowerCase defaultSettings
              (lotusDocument (js "project;" ++ [CR; LF]))) as [_ Hscan].
  destruct (Hscan 8%nat) as (st & Hrun & Hexp); [vm_compute; lia|].
  apply Hexp.
  vm_compute in Hrun. injection Hrun as <-. reflexivity.
Defined.

(** ** The validator on the documented inputs *)

(** C1, as stated, fails: on the text "project;" CR LF the pass emits no
    diagnostic with message 'Expected project name.'. *)
Lemma projectSemicolon_projectName_refuted :
  ~ exists ds d,
      validateTextDocument asciiLowerCase defaultSettings
        (lotusDocument (js "project;" ++ [CR; LF])) = Return ds /\
      d ∈ ds /\ message d = projectNameMessage.
Proof.
  intros (ds & d & Hrun & Hin & _).
  vm_compute in Hrun. injection Hrun as <-.
  by apply not_elem_of_nil in Hin.
Qed.

(** C1, amended: on the text "project;" CR LF the pass emits no diagnostic
    at all. The accumulator equals 'project' after the callback at index
    6, where the letter two positions ahead, the carriage return at index
    8, exists; the semicolon precedes the carriage return. *)
Theorem projectSemicolon_no_diagnostic (toLowerCase : str -> str)
    (settings : Settings) (uri : str) :
  let text := js "project;" ++ [CR; LF] in
  let letters := split_chars text in
  validateTextDocument toLowerCase settings {| uri := uri; getText := text |}
  = Return [] /\
  formingWord <$> forEachFrom (scanLetter toLowerCase letters) (take 7 letters)
                    0 initialState
  = Return (js "project") /\
  index letters (6 + 2) = Some [CR] /\
  index letters (8 - 1) = Some (js ";").
Proof. vm_compute. done. Qed.

(** C2: on the text "project MyGame" CR LF the pass emits exactly one
    diagnostic, 'Expected ; after project name.', spanning
    [[offset - 1, offset)] at the carriage return (offset 14), and no
    unresolved-word diagnostic for the project name 'MyGame'. *)
Theorem projectWithoutSemicolon_one_diagnostic (toLowerCase : str -> str)
    (settings : Settings) (uri : str) :
  let text := js "project MyGame" ++ [CR; LF] in
  index (split_chars text) 14 = Some [CR] /\
  validateTextDocument toLowerCase settings {| uri := uri; getText := text |}
  = Return [semicolonDiagnosticAt 14] /\
  message (semicolonDiagnosticAt 14) = js "Expected ; after project name." /\
  isUnresolvedWord (semicolonDiagnosticAt 14) = false.
Proof. vm_compute. done. Qed.

(** C3: on the single-token text "projectX" CR LF the pass emits no
    unresolved-word diagnostic: the keyword trigger fires when the
    accumulator passes through 'project' (after index 6) and sets
    [keywordMatched], [userDefinedString] and [expectingSemicolon], which
    still hold after the 'X'; the terminator check then emits
    'Expected ; after project name.' at the carriage return (offset 8). *)
Theorem projectX_suppressed_and_armed (toLowerCase : str -> str)
    (settings : Settings) (uri : str) :
  let text := js "projectX" ++ [CR; LF] in
  let letters := split_chars text in
  let flags st := (formingWord st, keywordMatched st, userDefinedString st,
                   expectingSemicolon st) in
  flags <$> forEachFrom (scanLetter toLowerCase letters) (take 7 letters)
              0 initialState
  = Return (js "project", true, true, Some true) /\
  flags <$> forEachFrom (scanLetter toLowerCase letters) (take 8 letters)
              0 initialState
  = Return (js "projectX", true, true, Some true) /\
  index letters 8 = Some [CR] /\
  validateTextDocument toLowerCase settings {| uri := uri; getText := text |}
  = Return [semicolonDiagnosticAt 8] /\
  message (semicolonDiagnosticAt 8) = js "Expected ; after project name." /\
  isUnresolvedWord (semicolonDiagnosticAt 8) = false.
Proof. vm_compute. done. Qed.

(** C7: on the text "charakters" CR LF the pass emits exactly one
    diagnostic, an unresolved word whose message ends with the suggestion
    "Did you mean 'characters'?": [findKeyword('charakters')] is
    'characters', since the similarity of the two words for substring
    length 2 is 14/18, above the threshold 0.7. The host's lower-casing
    leaves the two lower-case words as they are. *)
Theorem charakters_suggests_characters (toLowerCase : str -> str)
    (settings : Settings) (uri : str) :
  toLowerCase (js "charakters") = js "charakters" ->
  toLowerCase (js "characters") = js "characters" ->
  let text := js "charakters" ++ [CR; LF] in
  stringSimilarity toLowerCase (js "charakters") (js "characters") 2 false
  = (14 # 18)%Q /\
  (0.7 < 14 # 18)%Q /\
  findKeyword toLowerCase (js "charakters") = Some (js "characters") /\
  validateTextDocument toLowerCase settings {| uri := uri; getText := text |}
  = Return
      [ {| severity := DiagnosticSeverity.Error;
           range := {| start := positionAt 0; end_ := positionAt 10 |};
           message := js "Cannot find 'charakters'. Did you mean 'characters'?";
           source := js "LUMA" |} ].
Proof.
  intros Hword Htoken text.
  assert (stringSimilarity toLowerCase (js "charakters") (js "characters") 2 false
          = (14 # 18)%Q) as Hsim.
  { unfold stringSimilarity. cbn [negb]. rewrite Hword, Htoken.
    vm_compute. reflexivity. }
  assert (findKeyword toLowerCase (js "charakters") = Some (js "characters"))
    as Hfind.
  { unfold findKeyword, knownTokens. rewrite Hsim. reflexivity. }
  split; [exact Hsim|]. split; [reflexivity|]. split; [exact Hfind|].
  lazy -[findKeyword]. lazy -[findKeyword] in Hfind. rewrite Hfind.
  reflexivity.
Qed.

Lemma charakters_suggests_characters_witness :
  findKeyword asciiLowerCase (js "charakters") = Some (js "characters") /\
  validateTextDocument asciiLowerCase defaultSettings
    (lotusDocument (js "charakters" ++ [CR; LF]))
  = Return
      [ {| severity := DiagnosticSeverity.Error;
           range := {| start := positionAt 0; end_ := positionAt 10 |};
           message := js "Cannot find 'charakters'. Did you mean 'characters'?";
           source := js "LUMA" |} ].
Proof.
  destruct (charakters_suggests_characters asciiLowerCase defaultSettings
              (js "file:///game.lotus")) as (_ & _ & Hfind & Hrun);
    [reflexivity | reflexivity |].
  split; [exact Hfind | exact Hrun].
Defined.

(** ** Completion provider *)

(** C10: the completion handler returns exactly two items, labelled
    'characters' then 'project', whatever the position requested; the
    resolve handler attaches a non-empty detail to the item whose
    identifier is 1, the one of 'characters', and returns an item with
    any other identifier unchanged. *)
Theorem completion_items_and_resolve :
  (forall p : TextDocumentPositionParams,
     length (onCompletion p) = 2%nat /\
     label <$> onCompletion p = [js "characters"; js "project"] /\
     data <$> onCompletion p = [Some (AnyNumber 1); Some (AnyNumber 2)]) /\
  (forall item : CompletionItem,
     data item = Some (AnyNumber 1) ->
     (exists text, detail (onCompletionResolve item) = Some text /\ text <> []) /\
     label (onCompletionResolve item) = label item /\
     kind (onCompletionResolve item) = kind item /\
     data (onCompletionResolve item) = data item) /\
  (forall item : CompletionItem,
     data item <> Some (AnyNumber 1) -> onCompletionResolve item = item).
Proof.
  split; [|split].
  - intros p. done.
  - intros item Hdata. unfold onCompletionResolve.
    rewrite bool_decide_true by done. simpl.
    split; [|done]. eexists. split; [done|]. vm_compute. discriminate.
  - intros item Hdata. unfold onCompletionResolve.
    by rewrite bool_decide_false.
Qed.

Lemma completion_items_and_resolve_witness :
  (exists text,
     detail (onCompletionResolve
               {| label := js "characters"; kind := Some CompletionItemKind.Keyword;
                  data := Some (AnyNumber 1); detail := None |}) = Some text /\
     text <> []) /\
  onCompletionResolve
    {| label := js "project"; kind := Some CompletionItemKind.Keyword;
       data := Some (AnyNumber 2); detail := None |}
  = {| label := js "project"; kind := Some CompletionItemKind.Keyword;
       data := Some (AnyNumber 2); detail := None |}.
Proof.
  destruct completion_items_and_resolve as (_ & Hone & Hother).
  split.
  - apply Hone. reflexivity.
  - apply Hother. simpl. discriminate.
Defined.

(** ** Similarity matcher: the match counter as a multiset intersection *)

Lemma occ_multiplicity s n k l :
  occ s n k l = multiplicity k (list_to_set_disj ((fun i => substr s i n) <$> l)).
Proof.
  induction l as [|i l IH].
  - unfold occ. simpl. by rewrite multiplicity_empty.
  - rewrite occ_cons, fmap_cons, list_to_set_disj_cons,
      multiplicity_disj_union, multiplicity_singleton, IH.
    destruct (decide (substr s i n = k)), (decide (k = substr s i n));
      congruence.
Qed.

Lemma count_loop_represents s n :
  represents (foldl (countSubstring s n) ∅ (upto (len s - (n - 1)))) (ngrams s n).
Proof.
  intros k. rewrite count_loop_avail. unfold ngrams, substrings.
  rewrite <- occ_multiplicity. unfold avail. by rewrite lookup_empty.
Qed.

Lemma represents_consume map M k :
  represents map M -> (0 < avail map k)%nat ->
  represents (<[k := (avail map k - 1)%nat]> map) (M ∖ {[+ k +]}).
Proof.
  intros Hrep Hpos k'.
  rewrite avail_insert, multiplicity_difference, multiplicity_singleton.
  destruct (decide (k = k')) as [Heq|Hne], (decide (k' = k));
    try congruence; rewrite <- Hrep; try rewrite Heq; lia.
Qed.

(** The second loop counts the size of the intersection of what the map
    holds with the substrings it visits. *)
Lemma match_loop_size s n l map M c :
  represents map M ->
  snd (foldl (matchSubstring s n) (map, c) l) =
  (c + size (M ∩ list_to_set_disj ((fun i => substr s i n) <$> l)))%nat.
Proof.
  revert map M c. induction l as [|j l IH]; intros map M c Hrep;
    cbn [foldl fmap list_fmap].
  - rewrite list_to_set_disj_nil.
    replace (M ∩ ∅) with (∅ : gmultiset (list N)) by multiset_solver.
    rewrite gmultiset_size_empty. simpl. lia.
  - rewrite list_to_set_disj_cons.
    set (k := substr s j n). set (R := list_to_set_disj _).
    destruct (decide (0 < avail map k)%nat) as [Hpos|Hzero].
    + rewrite matchSubstring_hit by done. fold k.
      rewrite (IH _ (M ∖ {[+ k +]})) by (by apply represents_consume).
      fold R.
      assert (k ∈ M) as Hin.
      { unfold elem_of, gmultiset_elem_of. rewrite <- Hrep. done. }
      replace (M ∩ ({[+ k +]} ⊎ R)) with ({[+ k +]} ⊎ ((M ∖ {[+ k +]}) ∩ R))
        by multiset_solver.
      rewrite gmultiset_size_disj_union, gmultiset_size_singleton. lia.
    + assert (matchSubstring s n (map, c) j = (map, c)) as ->.
      { unfold matchSubstring. fold k. fold (avail map k).
        by rewrite bool_decide_false. }
      rewrite (IH _ M) by done. fold R.
      assert (k ∉ M) as Hout.
      { unfold elem_of, gmultiset_elem_of. rewrite <- Hrep. lia. }
      replace (M ∩ ({[+ k +]} ⊎ R)) with (M ∩ R) by multiset_solver.
      done.
Qed.

Lemma ngrams_size s n : size (ngrams s n) = Z.to_nat (len s - (n - 1)).
Proof.
  unfold ngrams, substrings.
  generalize (upto_length (len s - (n - 1))).
  generalize (upto (len s - (n - 1))) as l. intros l <-.
  induction l as [|i l IH].
  - by rewrite fmap_nil, list_to_set_disj_nil, gmultiset_size_empty.
  - rewrite fmap_cons, list_to_set_disj_cons, gmultiset_size_disj_union,
      gmultiset_size_singleton, IH. done.
Qed.

Lemma countMatches_intersection str1 str2 n :
  countMatches str1 str2 n = size (ngrams str1 n ∩ ngrams str2 n).
Proof.
  unfold countMatches.
  rewrite (match_loop_size str2 n _ _ (ngrams str1 n))
    by apply count_loop_represents.
  done.
Qed.

Lemma quotient_eq_1 (a d : Z) :
  0 < d -> (inject_Z a / inject_Z d == 1)%Q <-> a = d.
Proof.
  intros Hd. unfold Qeq, Qdiv, Qmult, Qinv, inject_Z. simpl.
  destruct d as [|d|d]; [lia| |lia]. simpl. lia.
Qed.

Lemma quotient_eq_0 (a d : Z) :
  0 < d -> (inject_Z a / inject_Z d == 0)%Q <-> a = 0.
Proof.
  intros Hd. unfold Qeq, Qdiv, Qmult, Qinv, inject_Z. simpl.
  destruct d as [|d|d]; [lia| |lia]. simpl. lia.
Qed.

Lemma ngrams_size_long (s : str) (n : Z) :
  n <= len s -> Z.of_nat (size (ngrams s n)) = len s - n + 1.
Proof. intros Hn. rewrite ngrams_size. lia. Qed.

(** X1: [stringSimilarity] is symmetric in its two strings, for every
    substring length and either case-sensitivity flag, repeated substrings
    included. *)
Theorem stringSimilarity_symmetric (toLowerCase : str -> str) (str1 str2 : str)
    (n : Z) (caseSensitive : bool) :
  stringSimilarity toLowerCase str1 str2 n caseSensitive =
  stringSimilarity toLowerCase str2 str1 n caseSensitive.
Proof.
  unfold stringSimilarity.
  set (a := if negb caseSensitive then toLowerCase str1 else str1).
  set (b := if negb caseSensitive then toLowerCase str2 else str2).
  rewrite (orb_comm (bool_decide (len b < n))).
  rewrite !countMatches_intersection.
  replace (ngrams b n ∩ ngrams a n) with (ngrams a n ∩ ngrams b n)
    by multiset_solver.
  by rewrite (Z.add_comm (len b)).
Qed.

(** The quotient of the source in terms of the multisets of substrings. *)
Lemma stringSimilarity_multisets (toLowerCase : str -> str) (str1 str2 : str)
    (n : Z) (caseSensitive : bool) :
  let a := if caseSensitive then str1 else toLowerCase str1 in
  let b := if caseSensitive then str2 else toLowerCase str2 in
  n <= len a -> n <= len b ->
  stringSimilarity toLowerCase str1 str2 n caseSensitive =
  (inject_Z (Z.of_nat (size (ngrams a n ∩ ngrams b n)) * 2)
   / inject_Z (Z.of_nat (size (ngrams a n)) + Z.of_nat (size (ngrams b n))))%Q.
Proof.
  intros a b Ha Hb.
  rewrite (stringSimilarity_quotient toLowerCase str1 str2 n caseSensitive Ha Hb).
  fold a b. rewrite countMatches_intersection, !ngrams_size_long by done.
  f_equal. f_equal. lia.
Qed.

(** X2: for inputs at least as long as the substring length, the score
    is Dice's coefficient of the two multisets of length-[n] substrings:
    twice the size of their intersection over the sum of their sizes. *)
Theorem stringSimilarity_dice (toLowerCase : str -> str) (str1 str2 : str)
    (n : Z) (caseSensitive : bool) :
  let a := if caseSensitive then str1 else toLowerCase str1 in
  let b := if caseSensitive then str2 else toLowerCase str2 in
  n <= len a -> n <= len b ->
  stringSimilarity toLowerCase str1 str2 n caseSensitive =
  (inject_Z (Z.of_nat (size (ngrams a n ∩ ngrams b n)) * 2)
   / inject_Z (Z.of_nat (size (ngrams a n)) + Z.of_nat (size (ngrams b n))))%Q.
Proof.
  intros a b Ha Hb.
  apply (stringSimilarity_multisets toLowerCase str1 str2 n caseSensitive Ha Hb).
Qed.

Lemma stringSimilarity_dice_witness :
  stringSimilarity asciiLowerCase (js "Abab") (js "BABA") 2 false =
  (inject_Z (Z.of_nat (size (ngrams (js "abab") 2 ∩ ngrams (js "baba") 2)) * 2)
   / inject_Z (Z.of_nat (size (ngrams (js "abab") 2))
               + Z.of_nat (size (ngrams (js "baba") 2))))%Q.
Proof.
  apply (stringSimilarity_dice asciiLowerCase (js "Abab") (js "BABA") 2 false);
    vm_compute; discriminate.
Defined.

(** X3: for inputs at least as long as the substring length, the score
    is 1 exactly when the two inputs have the same multiset of length-[n]
    substrings; the strings themselves may differ. *)
Theorem stringSimilarity_one_iff (toLowerCase : str -> str) (str1 str2 : str)
    (n : Z) (caseSensitive : bool) :
  let a := if caseSensitive then str1 else toLowerCase str1 in
  let b := if caseSensitive then str2 else toLowerCase str2 in
  n <= len a -> n <= len b ->
  (stringSimilarity toLowerCase str1 str2 n caseSensitive == 1)%Q <->
  ngrams a n = ngrams b n.
Proof.
  intros a b Ha Hb.
  rewrite (stringSimilarity_multisets toLowerCase str1 str2 n caseSensitive Ha Hb).
  fold a b.
  pose proof (ngrams_size_long a n Ha) as Hsa.
  pose proof (ngrams_size_long b n Hb) as Hsb.
  rewrite quotient_eq_1 by lia.
  set (A := ngrams a n) in *. set (B := ngrams b n) in *.
  assert (A ∩ B ⊆ A) as HA by multiset_solver.
  assert (A ∩ B ⊆ B) as HB by multiset_solver.
  pose proof (gmultiset_subseteq_size _ _ HA) as HsA.
  pose proof (gmultiset_subseteq_size _ _ HB) as HsB.
  split.
  - intros Heq.
    assert (A ∖ (A ∩ B) = ∅) as HdA.
    { apply gmultiset_size_empty_inv.
      rewrite gmultiset_size_difference by done. lia. }
    assert (B ∖ (A ∩ B) = ∅) as HdB.
    { apply gmultiset_size_empty_inv.
      rewrite gmultiset_size_difference by done. lia. }
    multiset_solver.
  - intros ->. replace (B ∩ B) with B by multiset_solver. lia.
Qed.

Lemma stringSimilarity_one_iff_witness :
  ngrams (js "abaca") 2 = ngrams (js "acaba") 2 /\ js "abaca" <> js "acaba".
Proof.
  split; [|vm_compute; discriminate].
  apply (stringSimilarity_one_iff asciiLowerCase (js "abaca") (js "acaba") 2 false);
    [vm_compute; discriminate ..|].
  vm_compute. reflexivity.
Defined.

(** X4: for inputs at least as long as the substring length, the score
    is 0 exactly when the two inputs share no substring of length [n]. *)
Theorem stringSimilarity_zero_iff (toLowerCase : str -> str) (str1 str2 : str)
    (n : Z) (caseSensitive : bool) :
  let a := if caseSensitive then str1 else toLowerCase str1 in
  let b := if caseSensitive then str2 else toLowerCase str2 in
  n <= len a -> n <= len b ->
  (stringSimilarity toLowerCase str1 str2 n caseSensitive == 0)%Q <->
  (forall k, k ∈ substrings a n -> k ∈ substrings b n -> False).
Proof.
  intros a b Ha Hb.
  rewrite (stringSimilarity_multisets toLowerCase str1 str2 n caseSensitive Ha Hb).
  fold a b.
  pose proof (ngrams_size_long a n Ha) as Hsa.
  pose proof (ngrams_size_long b n Hb) as Hsb.
  rewrite quotient_eq_0 by lia.
  split.
  - intros Hzero k Hka Hkb.
    assert (ngrams a n ∩ ngrams b n = ∅) as Hempty
      by (apply gmultiset_size_empty_inv; lia).
    apply elem_of_list_to_set_disj in Hka, Hkb.
    fold (ngrams a n) in Hka. fold (ngrams b n) in Hkb.
    multiset_solver.
  - intros Hdisjoint.
    assert (ngrams a n ∩ ngrams b n = ∅) as ->.
    { apply gmultiset_eq. intros k.
      rewrite multiplicity_intersection, multiplicity_empty.
      destruct (decide (k ∈ ngrams a n)) as [Hka|Hka];
        [destruct (decide (k ∈ ngrams b n)) as [Hkb|Hkb]|].
      - exfalso. apply (Hdisjoint k); by apply elem_of_list_to_set_disj.
      - unfold elem_of, gmultiset_elem_of in Hkb. lia.
      - unfold elem_of, gmultiset_elem_of in Hka. lia. }
    by rewrite gmultiset_size_empty.
Qed.

Lemma stringSimilarity_zero_iff_witness :
  (stringSimilarity asciiLowerCase (js "night") (js "DAYS") 2 false == 0)%Q.
Proof.
  apply (stringSimilarity_zero_iff asciiLowerCase (js "night") (js "DAYS") 2 false);
    [vm_compute; discriminate ..|].
  intros k Hka Hkb. vm_compute in Hka, Hkb.
  repeat (apply elem_of_cons in Hka as [->|Hka];
          [repeat (apply elem_of_cons in Hkb as [Hkb|Hkb]; [discriminate|]);
           by apply not_elem_of_nil in Hkb|]).
  by apply not_elem_of_nil in Hka.
Defined.

(** ** Document validator: what one callback pushes *)

Lemma bool_decide_singleton (c x : N) :
  bool_decide ([c] = [x]) = bool_decide (c = x).
Proof. apply bool_decide_ext. split; [by intros [= ->]|by intros ->]. Qed.

Lemma endOfWord_isSeparator (c : N) :
  bool_decide ([c] = js " ") || bool_decide ([c] = [CR]) || bool_decide ([c] = [LF])
  = isSeparator c.
Proof.
  unfold isSeparator. change (js " ") with [SPACE].
  by rewrite !bool_decide_singleton.
Qed.

Lemma includes_semicolon (c : N) :
  includes [c] (js ";") = bool_decide (c = SEMICOLON).
Proof.
  cbn [includes].
  rewrite (bool_decide_ext (js ";" `prefix_of` [c]) (c = SEMICOLON)).
  - rewrite (bool_decide_false (js ";" `prefix_of` [])).
    + by rewrite !orb_false_r.
    + intros [rest Heq]. discriminate.
  - split.
    + intros [rest Heq]. by injection Heq as ->.
    + intros ->. by exists [].
Qed.

Lemma index_split_chars text (i : Z) :
  index (split_chars text) i = (fun c => [c]) <$> index text i.
Proof.
  unfold index, split_chars. destruct (i <? 0); [done|].
  by rewrite list_lookup_fmap.
Qed.

Section Pushes.

Variable toLowerCase : str -> str.
Variable text : str.

(** The first two blocks of the callback push [wordPush] and leave the
    offset and the two line flags as they are. *)
Lemma wordBoundary_pushes (c : N) (st : ScanState) :
  let st2 := wordBoundary toLowerCase (isSeparator c)
               (accumulate (isSeparator c) [c] st) in
  diagnostics st2 = diagnostics st ++ wordPush toLowerCase st c /\
  offset st2 = offset st /\
  expectingSemicolon st2 = expectingSemicolon st /\
  userDefinedString st2 = userDefinedString st.
Proof.
  unfold wordBoundary, accumulate, wordPush, unresolvedWord.
  destruct (isSeparator c); cbn [negb andb diagnostics offset formingWord
    keywordMatched userDefinedString expectingSemicolon].
  - rewrite app_nil_r.
    case_bool_decide; cbn; [|by rewrite app_nil_r].
    destruct (keywordMatched st), (userDefinedString st); cbn;
      by rewrite ?app_nil_r.
  - by rewrite app_nil_r.
Qed.

(** The end-of-line block pushes [semicolonPush] when [letters[j - 1]]
    exists. *)
Lemma endOfLine_pushes (k : nat) (c : N) (st : ScanState) :
  offset st = Z.of_nat k ->
  (expectingSemicolon st = Some true -> is_Some (index text (Z.of_nat k - 1))) ->
  exists st3,
    endOfLine (split_chars text) [c] (Z.of_nat k) st = Return st3 /\
    diagnostics st3 = diagnostics st ++ semicolonPush text st c /\
    offset st3 = offset st /\
    userDefinedString st3 =
      (if bool_decide (c = CR) then false else userDefinedString st) /\
    formingWord st3 = formingWord st.
Proof.
  intros Hoff Hprev.
  unfold endOfLine, semicolonMissing, semicolonPush, semicolonDiagnostic,
    semicolonDiagnosticAt, semicolonMessage.
  rewrite bool_decide_singleton, index_split_chars, Hoff.
  case_bool_decide as Hcr; cbn [andb].
  2:{ exists st. by rewrite app_nil_r. }
  destruct (expectingSemicolon st) as [[|]|]; cbn [truthy default from_option id andb].
  2,3: eexists; split; [reflexivity|]; cbn; by rewrite app_nil_r.
  destruct Hprev as [previous Hprev]; [done|]. rewrite Hprev.
  cbn -[includes js]. rewrite includes_semicolon.
  rewrite (bool_decide_ext (Some previous = Some SEMICOLON) (previous = SEMICOLON))
    by (split; [by intros [= ->]|by intros ->]).
  eexists. split; [reflexivity|]. cbn -[js].
  case_bool_decide; cbn -[js]; by rewrite ?app_nil_r.
Qed.

(** The callback at index [k]: it returns, advances the offset, and
    appends [wordPush] and then [semicolonPush] to the diagnostics. *)
Lemma scanLetter_pushes (k : nat) (c : N) (st : ScanState) :
  text !! k = Some c ->
  scanInvariant text k st ->
  offset st = Z.of_nat k ->
  exists st',
    scanLetter toLowerCase (split_chars text) st [c] (Z.of_nat k) = Return st' /\
    scanInvariant text (S k) st' /\
    offset st' = Z.of_nat (S k) /\
    diagnostics st' =
      diagnostics st ++ wordPush toLowerCase st c ++ semicolonPush text st c.
Proof.
  intros Hc HI Hoff.
  assert (split_chars text !! k = Some [c]) as Hx.
  { unfold split_chars. by rewrite list_lookup_fmap, Hc. }
  destruct (scanLetter_invariant toLowerCase text k [c] st Hx HI)
    as (st' & Hrun & HI').
  exists st'. split; [exact Hrun|]. split; [exact HI'|].
  revert Hrun. unfold scanLetter. rewrite endOfWord_isSeparator.
  destruct (wordBoundary_pushes c st) as (Hds2 & Hoff2 & Hexp2 & _).
  set (st2 := wordBoundary _ _ _) in *.
  destruct (endOfLine_pushes k c st2) as (st3 & -> & Hds3 & Hoff3 & _).
  { by rewrite Hoff2. }
  { rewrite Hexp2. intros Hexp. destruct HI as (_ & H7 & _). specialize (H7 Hexp).
    apply index_in_range. apply lookup_lt_Some in Hc. unfold len. lia. }
  cbn. intros [= <-].
  unfold keywordSwitch, advance. rewrite projectName_guard_false.
  assert (semicolonPush text st2 c = semicolonPush text st c) as Hsame.
  { unfold semicolonPush. by rewrite Hoff2, Hexp2. }
  case_bool_decide; cbn; rewrite Hds3, Hds2, Hsame, Hoff3, Hoff2, Hoff, <- app_assoc;
    (split; [lia|done]).
Qed.

(** The flags after the callback, in closed form. *)
Lemma scanLetter_flags (j : Z) (c : N) (st st' : ScanState) :
  scanLetter toLowerCase (split_chars text) st [c] j = Return st' ->
  let triggered := bool_decide (nextWord st c = js "project") in
  formingWord st' = nextWord st c /\
  userDefinedString st' =
    (triggered || (negb (bool_decide (c = CR)) && userDefinedString st)) /\
  keywordMatched st' =
    (triggered ||
     (negb (isSeparator c && bool_decide (1 < len (trim (formingWord st))))
      && keywordMatched st)) /\
  expectingSemicolon st' =
    (if triggered then Some true
     else if bool_decide (c = CR) then Some false
     else expectingSemicolon st).
Proof.
  unfold scanLetter, endOfLine, keywordSwitch, wordBoundary, accumulate, advance,
    nextWord.
  rewrite endOfWord_isSeparator, bool_decide_singleton, projectName_guard_false.
  destruct st as [ds off fw kM uDS exp].
  cbn [diagnostics offset formingWord keywordMatched userDefinedString
       expectingSemicolon].
  destruct (isSeparator c); cbn [negb andb]; rewrite ?app_nil_r;
    [destruct (bool_decide (1 < len (trim fw)))|];
    (destruct (bool_decide (c = CR));
     [destruct (semicolonMissing _ _ _) as [missing|]; [|discriminate]|]);
    cbn -[js]; intros [= <-]; cbn -[js];
    case_bool_decide; cbn -[js]; rewrite ?andb_true_r, ?andb_false_r; done.
Qed.

End Pushes.

Lemma forEachFrom_app {A St : Type} (callback : St -> A -> Z -> Outcome St)
    (l1 l2 : list A) (j : Z) (st : St) :
  forEachFrom callback (l1 ++ l2) j st =
  st1 ← forEachFrom callback l1 j st;
  forEachFrom callback l2 (j + len l1) st1.
Proof.
  revert j st. induction l1 as [|x l1 IH]; intros j st; cbn [forEachFrom app].
  - cbn. f_equal. unfold len. simpl. lia.
  - destruct (callback st x j) as [st1|e]; cbn; [|done].
    rewrite IH. unfold len. cbn [length].
    replace (j + 1 + Z.of_nat (length l1)) with (j + Z.of_nat (S (length l1))) by lia.
    done.
Qed.

Lemma wordPush_elem toLowerCase st c d :
  d ∈ wordPush toLowerCase st c ->
  isSeparator c = true /\ 1 < len (trim (formingWord st)) /\
  keywordMatched st = false /\ userDefinedString st = false /\
  d = unresolvedWord st
        (default [] (findKeyword toLowerCase (trim (formingWord st)))).
Proof.
  unfold wordPush.
  destruct (isSeparator c); [|by intros ?%not_elem_of_nil].
  case_bool_decide; [|by intros ?%not_elem_of_nil].
  destruct (keywordMatched st); [by intros ?%not_elem_of_nil|].
  destruct (userDefinedString st); [by intros ?%not_elem_of_nil|].
  cbn. intros ->%list_elem_of_singleton. done.
Qed.

Lemma semicolonPush_elem text st c d :
  d ∈ semicolonPush text st c ->
  c = CR /\ expectingSemicolon st = Some true /\
  index text (offset st - 1) <> Some SEMICOLON /\
  d = semicolonDiagnosticAt (offset st).
Proof.
  unfold semicolonPush.
  case_bool_decide; [|by intros ?%not_elem_of_nil].
  destruct (expectingSemicolon st) as [[|]|]; try by intros ?%not_elem_of_nil.
  case_bool_decide; [by intros ?%not_elem_of_nil|].
  cbn. intros ->%list_elem_of_singleton. done.
Qed.

Section Trace.

Variable toLowerCase : str -> str.
Variable text : str.

(** A property of the scan state that every callback preserves holds
    when the scan ends; the scan may start in the middle of the text. *)
Lemma scan_from_invariant (Q : nat -> ScanState -> Prop) (j : nat) (st0 : ScanState) :
  (j <= length text)%nat ->
  scanInvariant text j st0 -> offset st0 = Z.of_nat j -> Q j st0 ->
  (forall k c st st',
     (j <= k)%nat -> text !! k = Some c ->
     scanInvariant text k st -> offset st = Z.of_nat k -> Q k st ->
     scanLetter toLowerCase (split_chars text) st [c] (Z.of_nat k) = Return st' ->
     diagnostics st' =
       diagnostics st ++ wordPush toLowerCase st c ++ semicolonPush text st c ->
     Q (S k) st') ->
  exists st',
    forEachFrom (scanLetter toLowerCase (split_chars text))
      (drop j (split_chars text)) (Z.of_nat j) st0 = Return st' /\
    offset st' = len text /\
    Q (length text) st'.
Proof.
  intros Hj HI0 Hoff0 HQ0 Hstep.
  destruct (forEachFrom_invariant (scanLetter toLowerCase (split_chars text))
              (split_chars text)
              (fun k st => (j <= k)%nat /\ scanInvariant text k st /\
                           offset st = Z.of_nat k /\ Q k st))
    with (rest := drop j (split_chars text)) (k := j) (st := st0)
    as (st' & Hrun & _ & _ & Hoff & HQ); [|done|done|].
  - intros k x st Hx (Hjk & HI & Hoff & HQ).
    apply split_chars_lookup in Hx as (c & Hc & ->).
    destruct (scanLetter_pushes toLowerCase text k c st Hc HI Hoff)
      as (st' & Hrun & HI' & Hoff' & Hds).
    exists st'. split; [done|]. split; [lia|]. split; [done|]. split; [done|].
    by apply (Hstep k c st st').
  - assert (j + length (drop j (split_chars text)) = length text)%nat as Hend.
    { rewrite length_drop. unfold split_chars. rewrite length_fmap. lia. }
    rewrite Hend in Hoff, HQ. exists st'. done.
Qed.

(** The same for the whole pass. *)
Lemma validate_invariant (Q : nat -> ScanState -> Prop)
    (settings : Settings) (textDocument : TextDocument) :
  getText textDocument = text ->
  Q 0%nat initialState ->
  (forall k c st st',
     text !! k = Some c ->
     scanInvariant text k st -> offset st = Z.of_nat k -> Q k st ->
     scanLetter toLowerCase (split_chars text) st [c] (Z.of_nat k) = Return st' ->
     diagnostics st' =
       diagnostics st ++ wordPush toLowerCase st c ++ semicolonPush text st c ->
     Q (S k) st') ->
  exists st,
    validateTextDocument toLowerCase settings textDocument = Return (diagnostics st) /\
    Q (length text) st.
Proof.
  intros Htext HQ0 Hstep.
  destruct (scan_from_invariant Q 0 initialState) as (st & Hrun & _ & HQ);
    [lia|apply initialState_invariant|done|done| |].
  - intros k c st st' _. apply Hstep.
  - exists st. unfold validateTextDocument. rewrite Htext.
    rewrite drop_0 in Hrun. change (Z.of_nat 0) with 0 in Hrun.
    by rewrite Hrun.
Qed.

End Trace.

(** ** Document validator: what the diagnostics look like *)

Lemma index_lookup {A} (l : list A) (k : nat) : index l (Z.of_nat k) = l !! k.
Proof.
  unfold index. destruct (Z.of_nat k <? 0) eqn:Hneg.
  - apply Z.ltb_lt in Hneg. lia.
  - by rewrite Nat2Z.id.
Qed.

(** X5: every diagnostic of a pass is an error tagged 'LUMA' whose range
    was computed from offsets [0 <= start <= end] that lie inside the
    text, and its end offset is the position of a space, a carriage
    return or a line feed. *)
Theorem diagnostics_within_document (toLowerCase : str -> str)
    (settings : Settings) (textDocument : TextDocument) :
  exists ds,
    validateTextDocument toLowerCase settings textDocument = Return ds /\
    Forall (fun d =>
              severity d = DiagnosticSeverity.Error /\
              source d = js "LUMA" /\
              0 <= startOffset d <= endOffset d /\
              endOffset d < len (getText textDocument) /\
              exists c, index (getText textDocument) (endOffset d) = Some c /\
                        isSeparator c = true) ds.
Proof.
  set (text := getText textDocument).
  set (P := fun d : Diagnostic => _).
  destruct (validate_invariant toLowerCase text
              (fun _ st => Forall P (diagnostics st)) settings textDocument)
    as (st & Hrun & HQ); [done|constructor| |by exists (diagnostics st)].
  intros k c st st' Hc (Hfw & Hexp & _) Hoff HQ _ ->.
  pose proof (lookup_lt_Some _ _ _ Hc) as Hk.
  apply Forall_app. split; [done|]. apply Forall_app. split.
  - apply Forall_forall. intros d (Hsep & _ & _ & _ & ->)%wordPush_elem.
    unfold P, startOffset, endOffset, unresolvedWord, len. cbn -[js].
    rewrite Hoff, index_lookup. repeat split; try done; try lia. by exists c.
  - apply Forall_forall. intros d (-> & He & _ & ->)%semicolonPush_elem.
    specialize (Hexp He).
    unfold P, startOffset, endOffset, semicolonDiagnosticAt, len. cbn -[js].
    rewrite Hoff, index_lookup. repeat split; try done; try lia. by exists CR.
Qed.

(** X6: the diagnostics of a pass are ordered by end offset. *)
Theorem diagnostics_in_document_order (toLowerCase : str -> str)
    (settings : Settings) (textDocument : TextDocument) :
  exists ds,
    validateTextDocument toLowerCase settings textDocument = Return ds /\
    StronglySorted (fun d1 d2 => endOffset d1 <= endOffset d2) ds.
Proof.
  set (R := fun d1 d2 : Diagnostic => endOffset d1 <= endOffset d2).
  destruct (validate_invariant toLowerCase (getText textDocument)
              (fun k st => Forall (fun d => endOffset d < Z.of_nat k) (diagnostics st)
                           /\ StronglySorted R (diagnostics st))
              settings textDocument)
    as (st & Hrun & _ & HQ); [done|split; constructor| |by exists (diagnostics st)].
  intros k c st st' Hc _ Hoff [Hbound Hsorted] _ ->.
  set (new := wordPush _ _ _ ++ semicolonPush _ _ _).
  assert (Forall (fun d => endOffset d = Z.of_nat k) new) as Hnew.
  { apply Forall_app. split; apply Forall_forall.
    - intros d (_ & _ & _ & _ & ->)%wordPush_elem. done.
    - intros d (_ & _ & _ & ->)%semicolonPush_elem. done. }
  split.
  - apply Forall_app. split.
    + eapply Forall_impl; [exact Hbound|]. simpl. lia.
    + eapply Forall_impl; [exact Hnew|]. simpl. lia.
  - apply StronglySorted_app_2; [|done|].
    + intros d1 d2 Hd1 Hd2. unfold R.
      rewrite Forall_forall in Hbound, Hnew.
      specialize (Hbound d1 Hd1). specialize (Hnew d2 Hd2). lia.
    + clear -Hnew. induction Hnew as [|d l Hd Hl IH]; constructor; [done|].
      eapply Forall_impl; [exact Hl|]. intros d' Hd'. unfold R. simpl in *. lia.
Qed.

(** X7: a pass emits at most one diagnostic per separator (space,
    carriage return, line feed) of the text plus one per carriage
    return. *)
Theorem diagnostics_count_bound (toLowerCase : str -> str)
    (settings : Settings) (textDocument : TextDocument) :
  exists ds,
    validateTextDocument toLowerCase settings textDocument = Return ds /\
    (length ds <=
     length (filter (fun c => isSeparator c = true) (getText textDocument))
     + length (filter (fun c => c = CR) (getText textDocument)))%nat.
Proof.
  set (text := getText textDocument).
  destruct (validate_invariant toLowerCase text
              (fun k st =>
                 (length (diagnostics st) <=
                  length (filter (fun c => isSeparator c = true) (take k text))
                  + length (filter (fun c => c = CR) (take k text)))%nat)
              settings textDocument)
    as (st & Hrun & HQ); [done|simpl; lia| |].
  - intros k c st st' Hc _ _ HQ _ ->.
    rewrite (take_S_r _ _ _ Hc), !filter_app, !length_app.
    assert (length (wordPush toLowerCase st c) <=
            length (filter (fun c => isSeparator c = true) [c]))%nat.
    { unfold wordPush. rewrite filter_cons, filter_nil.
      destruct (isSeparator c); cbn [andb].
      - rewrite decide_True by done.
        destruct (_ && _ && _); simpl; lia.
      - simpl. lia. }
    assert (length (semicolonPush text st c) <=
            length (filter (fun c => c = CR) [c]))%nat.
    { unfold semicolonPush. rewrite filter_cons, filter_nil.
      case_bool_decide; cbn [andb].
      - rewrite decide_True by done. destruct (_ && _); simpl; lia.
      - simpl. lia. }
    lia.
  - exists (diagnostics st). split; [done|]. by rewrite firstn_all in HQ.
Qed.

(** X8: a text without space, carriage return and line feed yields no
    diagnostic, whatever its content: a last word that no separator
    follows is not checked. *)
Theorem unterminated_text_no_diagnostic (toLowerCase : str -> str)
    (settings : Settings) (textDocument : TextDocument) :
  Forall (fun c => isSeparator c = false) (getText textDocument) ->
  validateTextDocument toLowerCase settings textDocument = Return [].
Proof.
  intros Hnone.
  destruct (validate_invariant toLowerCase (getText textDocument)
              (fun _ st => diagnostics st = []) settings textDocument)
    as (st & Hrun & HQ); [done|done| |by rewrite Hrun, HQ].
  intros k c st st' Hc _ _ HQ _ ->.
  rewrite Forall_forall in Hnone.
  assert (isSeparator c = false) as Hsep
    by (apply Hnone; by eapply list_elem_of_lookup_2).
  assert (c <> CR) as Hcr by (intros ->; by vm_compute in Hsep).
  unfold wordPush, semicolonPush.
  rewrite Hsep, (bool_decide_false (c = CR)) by done.
  by rewrite HQ.
Qed.

Lemma unterminated_text_no_diagnostic_witness :
  validateTextDocument asciiLowerCase defaultSettings
    (lotusDocument (js "charakters")) = Return [].
Proof.
  apply (unterminated_text_no_diagnostic asciiLowerCase defaultSettings
           (lotusDocument (js "charakters"))).
  vm_compute. repeat constructor.
Defined.

(** X9: every diagnostic of a pass has one of two shapes. It is the
    unresolved word built from an accumulator that holds no separator
    and more than one code unit after trimming, with the suggestion of
    [findKeyword] for the trimmed accumulator; or it is the missing
    terminator at an offset [e >= 7] where the text has a carriage return
    that a code unit other than the semicolon precedes. *)
Theorem diagnostics_shapes (toLowerCase : str -> str)
    (settings : Settings) (textDocument : TextDocument) :
  exists ds,
    validateTextDocument toLowerCase settings textDocument = Return ds /\
    Forall (fun d =>
              (exists st,
                 d = unresolvedWord st
                       (default [] (findKeyword toLowerCase (trim (formingWord st)))) /\
                 Forall (fun c => isSeparator c = false) (formingWord st) /\
                 1 < len (trim (formingWord st))) \/
              (exists e previous,
                 d = semicolonDiagnosticAt e /\ 7 <= e /\
                 index (getText textDocument) e = Some CR /\
                 index (getText textDocument) (e - 1) = Some previous /\
                 previous <> SEMICOLON)) ds.
Proof.
  set (text := getText textDocument).
  set (P := fun d : Diagnostic => _).
  destruct (validate_invariant toLowerCase text
              (fun _ st => Forall (fun c => isSeparator c = false) (formingWord st)
                           /\ Forall P (diagnostics st)) settings textDocument)
    as (st & Hrun & _ & HQ); [done|split; constructor| |by exists (diagnostics st)].
  intros k c st st' Hc (_ & Hexp & _) Hoff [Hword HQ] Hstep ->.
  destruct (scanLetter_flags toLowerCase text _ _ _ _ Hstep) as (-> & _).
  split.
  - unfold nextWord. destruct (isSeparator c) eqn:Hsep.
    + case_bool_decide; [constructor|done].
    + apply Forall_app. split; [done|]. by apply Forall_singleton.
  - apply Forall_app. split; [done|]. apply Forall_app. split.
    + apply Forall_forall. intros d (_ & Hlong & _ & _ & ->)%wordPush_elem.
      left. by exists st.
    + apply Forall_forall. intros d (-> & He & Hprev & ->)%semicolonPush_elem.
      specialize (Hexp He). right.
      rewrite Hoff in Hprev |- *.
      destruct (index_in_range text (Z.of_nat k - 1)) as [previous Hp].
      { apply lookup_lt_Some in Hc. unfold len. lia. }
      exists (Z.of_nat k), previous. rewrite index_lookup.
      repeat split; try done; [lia|]. intros ->. by rewrite Hp in Hprev.
Qed.

(** ** Document validator: project declarations and leading words *)

Lemma scan_prefix_state (toLowerCase : str -> str) (text : str) (j : nat) :
  (j <= length text)%nat ->
  exists st,
    forEachFrom (scanLetter toLowerCase (split_chars text))
      (take j (split_chars text)) 0 initialState = Return st /\
    scanInvariant text j st /\ offset st = Z.of_nat j.
Proof.
  intros Hj.
  destruct (forEachFrom_invariant (scanLetter toLowerCase (split_chars text))
              (take j (split_chars text))
              (fun k st => scanInvariant text k st /\ offset st = Z.of_nat k))
    with (rest := take j (split_chars text)) (k := 0%nat) (st := initialState)
    as (st & Hrun & HI & Hoff); [|done|split; [apply initialState_invariant|done]|].
  - intros k x st [Hx _]%lookup_take_Some [HI Hoff].
    apply split_chars_lookup in Hx as (c & Hc & ->).
    destruct (scanLetter_pushes toLowerCase text k c st Hc HI Hoff)
      as (st' & Hrun & HI' & Hoff' & _).
    by exists st'.
  - assert (length (take j (split_chars text)) = j) as Hlen.
    { rewrite length_take. unfold split_chars. rewrite length_fmap. lia. }
    rewrite Nat.add_0_l, Hlen in HI, Hoff. by exists st.
Qed.

(** X10: once [userDefinedString] is set, by the keyword 'project', only
    a carriage return clears it: when the rest of the text has no
    carriage return, the pass adds no diagnostic after that point, and
    returns the diagnostics collected so far. *)
Theorem no_diagnostic_after_project_without_CR (toLowerCase : str -> str)
    (settings : Settings) (textDocument : TextDocument) (j : nat) (st : ScanState) :
  let text := getText textDocument in
  (j <= length text)%nat ->
  forEachFrom (scanLetter toLowerCase (split_chars text))
    (take j (split_chars text)) 0 initialState = Return st ->
  userDefinedString st = true ->
  (forall i c, (j <= i)%nat -> text !! i = Some c -> c <> CR) ->
  validateTextDocument toLowerCase settings textDocument = Return (diagnostics st).
Proof.
  intros text Hj Hprefix Huds Hrest.
  destruct (scan_prefix_state toLowerCase text j Hj) as (st0 & Hrun0 & HI & Hoff).
  fold text in Hprefix. rewrite Hprefix in Hrun0. injection Hrun0 as <-.
  destruct (scan_from_invariant toLowerCase text
              (fun _ st' => userDefinedString st' = true /\
                            diagnostics st' = diagnostics st) j st)
    as (st' & Hrun & _ & _ & Hds); [done..| |].
  - intros k c st1 st2 Hjk Hc _ _ [Huds1 Hds1] Hstep ->.
    pose proof (Hrest k c Hjk Hc) as Hcr.
    destruct (scanLetter_flags toLowerCase text _ _ _ _ Hstep) as (_ & -> & _).
    rewrite Huds1, (bool_decide_false (c = CR)) by done.
    split; [by rewrite orb_true_r|].
    unfold wordPush, semicolonPush.
    rewrite Huds1, (bool_decide_false (c = CR)) by done.
    by rewrite !andb_false_r, !app_nil_r.
  - unfold validateTextDocument. fold text.
    rewrite <- (take_drop j (split_chars text)) at 2.
    rewrite forEachFrom_app, Hprefix. cbn.
    assert (len (take j (split_chars text)) = Z.of_nat j) as ->.
    { unfold len, split_chars. rewrite length_take, length_fmap. lia. }
    rewrite Z.add_0_l, Hrun. cbn. by rewrite Hds.
Qed.

Lemma no_diagnostic_after_project_without_CR_witness :
  validateTextDocument asciiLowerCase defaultSettings
    (lotusDocument (js "project Game" ++ [LF] ++ js "charakters" ++ [LF]))
  = Return [].
Proof.
  apply (no_diagnostic_after_project_without_CR asciiLowerCase defaultSettings
           (lotusDocument (js "project Game" ++ [LF] ++ js "charakters" ++ [LF]))
           7%nat
           {| diagnostics := []; offset := 7; formingWord := js "project";
              keywordMatched := true; userDefinedString := true;
              expectingSemicolon := Some true |}).
  - vm_compute. lia.
  - vm_compute. reflexivity.
  - reflexivity.
  - intros i c _ Hc Hcr. subst c.
    apply list_elem_of_lookup_2 in Hc. vm_compute in Hc.
    repeat (apply elem_of_cons in Hc as [Hc|Hc]; [discriminate|]).
    by apply not_elem_of_nil in Hc.
Defined.

(** X11: a leading word that holds no separator and more than one code
    unit after trimming, and that does not start with 'project', is
    reported as soon as a separator follows it, whether or not it is a
    known token: the first diagnostic of the pass is the unresolved word
    for it, spanning offsets [0] to its length. *)
Theorem leading_word_reported (toLowerCase : str -> str)
    (settings : Settings) (textDocument : TextDocument)
    (word : str) (c : N) (rest : str) :
  getText textDocument = word ++ c :: rest ->
  Forall (fun x => isSeparator x = false) word ->
  isSeparator c = true ->
  1 < len (trim word) ->
  ~ js "project" `prefix_of` word ->
  exists more,
    validateTextDocument toLowerCase settings textDocument =
    Return
      ({| severity := DiagnosticSeverity.Error;
          range := {| start := positionAt 0; end_ := positionAt (len word) |};
          message := js "Cannot find '" ++ word ++ js "'. " ++
                     match findKeyword toLowerCase (trim word) with
                     | Some token =>
                         if bool_decide (0 < len token)
                         then js "Did you mean '" ++ token ++ js "'?"
                         else []
                     | None => []
                     end;
          source := js "LUMA" |} :: more).
Proof.
  intros Htext Hword Hsep Hlong Hproject.
  set (d := {| severity := _; range := _; message := _; source := _ |}).
  set (text := getText textDocument) in *.
  set (inWord := fun (k : nat) =>
         {| diagnostics := []; offset := Z.of_nat k; formingWord := take k word;
            keywordMatched := false; userDefinedString := false;
            expectingSemicolon := None |}).
  destruct (validate_invariant toLowerCase text
              (fun k st => ((k <= length word)%nat -> st = inWord k) /\
                           ((length word < k)%nat -> [d] `prefix_of` diagnostics st))
              settings textDocument)
    as (st & Hrun & _ & HQ); [done|split; [done|simpl; lia]| |].
  - intros k x st st' Hx HI Hoff [Hin Hout] Hstep Hds.
    destruct (scanLetter_flags toLowerCase text _ _ _ _ Hstep)
      as (Hfw' & Huds' & Hkm' & Hexp').
    destruct (scanLetter_pushes toLowerCase text k x st Hx HI Hoff)
      as (st'' & Hstep'' & _ & Hoff' & _).
    rewrite Hstep in Hstep''. injection Hstep'' as <-.
    destruct (decide (k < length word)%nat) as [Hlt|Hge].
    + (* inside the word *)
      split; [intros _|lia].
      rewrite (Hin ltac:(lia)) in *. clear Hin Hout.
      assert (word !! k = Some x) as Hwx.
      { rewrite Htext, lookup_app_l in Hx by done. done. }
      assert (isSeparator x = false) as Hx_sep.
      { rewrite Forall_forall in Hword. apply Hword.
        by eapply list_elem_of_lookup_2. }
      assert (x <> CR) as Hcr by (intros ->; by vm_compute in Hx_sep).
      assert (nextWord (inWord k) x = take (S k) word) as Hnext.
      { unfold nextWord. rewrite Hx_sep. cbn. by rewrite (take_S_r _ _ _ Hwx). }
      assert (take (S k) word <> js "project") as Hnot.
      { intros Heq. apply Hproject. rewrite <- Heq. apply prefix_take. }
      rewrite Hnext in Hfw', Huds', Hkm', Hexp'.
      rewrite (bool_decide_false (take (S k) word = js "project")) in Huds', Hkm', Hexp'
        by done.
      rewrite (bool_decide_false (x = CR)) in Hexp' by done.
      cbn in Huds', Hkm', Hexp'. rewrite andb_false_r in Huds', Hkm'.
      unfold wordPush, semicolonPush in Hds.
      rewrite Hx_sep, (bool_decide_false (x = CR)) in Hds by done.
      cbn in Hds.
      destruct st' as [ds' off' fw' kM' uDS' exp']. cbn in *.
      unfold inWord. by subst.
    + split; [lia|intros _].
      destruct (decide (k = length word)) as [->|Hne].
      * (* the separator that follows the word *)
        rewrite (Hin ltac:(lia)) in *. clear Hin Hout.
        assert (x = c) as ->.
        { rewrite Htext, list_lookup_middle in Hx by done. by injection Hx. }
        rewrite Hds. unfold wordPush, inWord.
        rewrite firstn_all, Hsep, (bool_decide_true (1 < len (trim word))) by done.
        cbn [diagnostics formingWord keywordMatched userDefinedString negb andb app].
        exists (semicolonPush text (inWord (length word)) c).
        unfold d, unresolvedWord. cbn -[js trim findKeyword].
        rewrite Z.sub_diag. unfold len at 1.
        repeat f_equal.
        destruct (findKeyword toLowerCase (trim word)) as [token|]; cbn -[js]; [done|].
        by rewrite bool_decide_false.
      * rewrite Hds. destruct (Hout ltac:(lia)) as [more ->].
        rewrite <- app_assoc. by eexists.
  - destruct (HQ ltac:(rewrite Htext, length_app; simpl; lia)) as [more Hmore].
    exists more. by rewrite Hrun, Hmore.
Qed.

Lemma leading_word_reported_witness :
  exists more,
    validateTextDocument asciiLowerCase defaultSettings
      (lotusDocument (js "characters" ++ [CR; LF])) =
    Return
      ({| severity := DiagnosticSeverity.Error;
          range := {| start := positionAt 0; end_ := positionAt 10 |};
          message := js "Cannot find 'characters'. Did you mean 'characters'?";
          source := js "LUMA" |} :: more).
Proof.
  destruct (leading_word_reported asciiLowerCase defaultSettings
              (lotusDocument (js "characters" ++ [CR; LF]))
              (js "characters") CR [LF]) as [more Hrun].
  - reflexivity.
  - vm_compute. repeat constructor.
  - reflexivity.
  - vm_compute. reflexivity.
  - intros [rest Heq]. vm_compute in Heq. discriminate.
  - exists more. exact Hrun.
Defined.

(** ** Keyword lookup *)

(** X12: [findKeyword] returns the first known token whose similarity
    with the word exceeds 0.7, the tokens before it scoring at most 0.7;
    it returns nothing exactly when no known token scores above 0.7. *)
Theorem findKeyword_first_match (toLowerCase : str -> str) (word : str) :
  let score token := stringSimilarity toLowerCase word token 2 false in
  match findKeyword toLowerCase word with
  | Some token =>
      exists before after,
        knownTokens = before ++ token :: after /\
        (0.7 < score token)%Q /\
        Forall (fun t => (score t <= 0.7)%Q) before
  | None => Forall (fun t => (score t <= 0.7)%Q) knownTokens
  end.
Proof.
  intros score. unfold findKeyword, knownTokens. fold (score (js "characters")).
  fold (score (js "project")).
  destruct (Qlt_le_dec 0.7 (score (js "characters"))) as [Hfirst|Hfirst].
  - exists [], [js "project"]. repeat split; [done|constructor].
  - destruct (Qlt_le_dec 0.7 (score (js "project"))) as [Hsecond|Hsecond].
    + exists [js "characters"], []. repeat split; [done|].
      by apply Forall_singleton.
    + repeat constructor; done.
Qed.

(** X13: a word whose lower-cased form has fewer than two code units has
    no suggestion. *)
Theorem findKeyword_short_word (toLowerCase : str -> str) (word : str) :
  len (toLowerCase word) < 2 ->
  findKeyword toLowerCase word = None.
Proof.
  intros Hshort. unfold findKeyword, knownTokens.
  rewrite !(stringSimilarity_short toLowerCase word _ 2 false) by (by left).
  reflexivity.
Qed.

Lemma findKeyword_short_word_witness :
  findKeyword asciiLowerCase (js "P") = None.
Proof.
  apply (findKeyword_short_word asciiLowerCase (js "P")). vm_compute. reflexivity.
Defined.

(** X14: the suggestion depends on the word through its lower-cased form
    only: two words with the same lower-cased form get the same
    suggestion. *)
Theorem findKeyword_ignores_case (toLowerCase : str -> str) (word1 word2 : str) :
  toLowerCase word1 = toLowerCase word2 ->
  findKeyword toLowerCase word1 = findKeyword toLowerCase word2.
Proof.
  intros Hsame. unfold findKeyword.
  assert (forall token,
            stringSimilarity toLowerCase word1 token 2 false =
            stringSimilarity toLowerCase word2 token 2 false) as Hscore.
  { intros token. unfold stringSimilarity. cbn [negb]. by rewrite Hsame. }
  induction knownTokens as [|token rest IH]; [done|].
  by rewrite Hscore, IH.
Qed.

Lemma findKeyword_ignores_case_witness :
  findKeyword asciiLowerCase (js "CHARAKTERS") =
  findKeyword asciiLowerCase (js "charakters").
Proof.
  apply (findKeyword_ignores_case asciiLowerCase (js "CHARAKTERS") (js "charakters")).
  vm_compute. reflexivity.
Defined.

(** X15: every known token is its own suggestion, no earlier token of
    the directory scoring above 0.7 against it, when the lower-casing of
    the host leaves the tokens as they are. *)
Theorem findKeyword_known_token (toLowerCase : str -> str) (token : str) :
  Forall (fun t => toLowerCase t = t) knownTokens ->
  token ∈ knownTokens ->
  findKeyword toLowerCase token = Some token.
Proof.
  intros Hfixed Hin. unfold knownTokens in *.
  apply Forall_cons in Hfixed as [Hc Hfixed].
  apply Forall_cons in Hfixed as [Hp _].
  assert (forall a b, a ∈ [js "characters"; js "project"] ->
                      b ∈ [js "characters"; js "project"] ->
                      stringSimilarity toLowerCase a b 2 false =
                      stringSimilarity asciiLowerCase a b 2 false) as Hscore.
  { intros a b Ha Hb. unfold stringSimilarity. cbn [negb].
    apply elem_of_cons in Ha as [->|Ha]; [|apply list_elem_of_singleton in Ha as ->];
      (apply elem_of_cons in Hb as [->|Hb]; [|apply list_elem_of_singleton in Hb as ->]);
      rewrite ?Hc, ?Hp; reflexivity. }
  unfold findKeyword, knownTokens.
  apply elem_of_cons in Hin as [->|Hin]; [|apply list_elem_of_singleton in Hin as ->].
  - rewrite Hscore by (repeat constructor). reflexivity.
  - rewrite !Hscore by (repeat constructor). reflexivity.
Qed.

Lemma findKeyword_known_token_witness :
  findKeyword asciiLowerCase (js "project") = Some (js "project").
Proof.
  apply (findKeyword_known_token asciiLowerCase (js "project")).
  - repeat constructor.
  - unfold knownTokens. apply elem_of_cons. right. apply list_elem_of_singleton. done.
Defined.

(** ** Completion provider *)

(** X16: resolving a completion item changes nothing but its detail, and
    resolving twice is the same as resolving once. *)
Theorem onCompletionResolve_idempotent (item : CompletionItem) :
  onCompletionResolve (onCompletionResolve item) = onCompletionResolve item /\
  label (onCompletionResolve item) = label item /\
  kind (onCompletionResolve item) = kind item /\
  data (onCompletionResolve item) = data item.
Proof.
  unfold onCompletionResolve.
  destruct (bool_decide (data item = Some (AnyNumber 1))) eqn:Hdata; cbn.
  - by rewrite Hdata.
  - by rewrite Hdata.
Qed.

(** ** Settings cache *)

Lemma getDocumentSettings_flag resource st :
  hasConfigurationCapability (fst (getDocumentSettings resource st)) =
  hasConfigurationCapability st.
Proof.
  unfold getDocumentSettings.
  destruct (hasConfigurationCapability st) eqn:Hcap; cbn; [|done].
  destruct (documentSettings st !! resource); cbn; done.
Qed.

(** A settings lookup keeps what the cache holds. *)
Lemma getDocumentSettings_keeps resource other st pending :
  documentSettings st !! other = Some pending ->
  documentSettings (fst (getDocumentSettings resource st)) !! other = Some pending.
Proof.
  intros Hother. unfold getDocumentSettings.
  destruct (hasConfigurationCapability st); cbn; [|done].
  destruct (documentSettings st !! resource) as [t|] eqn:Hres; cbn; [done|].
  rewrite lookup_insert_ne; [done|]. intros ->. congruence.
Qed.

Lemma getDocumentSettings_hit resource st pending :
  hasConfigurationCapability st = true ->
  documentSettings st !! resource = Some pending ->
  getDocumentSettings resource st = (st, pending).
Proof.
  intros Hcap Hres. unfold getDocumentSettings. by rewrite Hcap, Hres.
Qed.

Lemma getDocumentSettings_stored resource st :
  hasConfigurationCapability st = true ->
  documentSettings (fst (getDocumentSettings resource st)) !! resource =
  Some (snd (getDocumentSettings resource st)).
Proof.
  intros Hcap. unfold getDocumentSettings. rewrite Hcap. cbn.
  destruct (documentSettings st !! resource) as [t|] eqn:Hres; cbn; [done|].
  by rewrite lookup_insert_eq.
Qed.

(** X17: when the client supports configuration requests, the settings
    of a resource are requested once: after a first lookup, and after any
    further lookups for any resources, a lookup for that resource returns
    the promise of the first one and changes nothing. *)
Theorem getDocumentSettings_cache_hit (resource : str) (others : list str)
    (st : ServerState) :
  hasConfigurationCapability st = true ->
  let st1 := fst (getDocumentSettings resource st) in
  let pending := snd (getDocumentSettings resource st) in
  let st2 := foldl (fun s r => fst (getDocumentSettings r s)) st1 others in
  getDocumentSettings resource st2 = (st2, pending).
Proof.
  intros Hcap st1 pending st2.
  assert (hasConfigurationCapability st1 = true) as Hcap1
    by (unfold st1; by rewrite getDocumentSettings_flag).
  pose proof (getDocumentSettings_stored resource st Hcap) as Hstored.
  fold st1 pending in Hstored.
  clearbody st1 pending. unfold st2. clear st2.
  revert st1 Hcap1 Hstored. induction others as [|r others IH]; intros st1 Hcap1 Hstored.
  - by apply getDocumentSettings_hit.
  - cbn [foldl]. apply IH.
    + by rewrite getDocumentSettings_flag.
    + by apply getDocumentSettings_keeps.
Qed.

Lemma getDocumentSettings_cache_hit_witness :
  let st := fst (onInitialize
                   {| capabilities :=
                        {| workspace := Some {| configuration := Some true;
                                                workspaceFolders := None |};
                           textDocument := None |} |} startState) in
  let st2 := foldl (fun s r => fst (getDocumentSettings r s))
               (fst (getDocumentSettings (js "a.lotus") st)) [js "b.lotus"] in
  getDocumentSettings (js "a.lotus") st2 = (st2, ConfigurationRequest 0).
Proof.
  apply (getDocumentSettings_cache_hit (js "a.lotus") [js "b.lotus"]).
  reflexivity.
Defined.

(** X18: when the client supports configuration requests, a series of
    settings lookups sends one configuration request for each resource
    that enters the cache and nothing else: the requests sent are all for
    section 'luma' of a resource looked up, their number is the growth of
    the cache, and the cache then holds what it held and every resource
    looked up. *)
Theorem getDocumentSettings_one_request_per_resource (resources : list str)
    (st : ServerState) :
  hasConfigurationCapability st = true ->
  let st' := foldl (fun s r => fst (getDocumentSettings r s)) st resources in
  dom (documentSettings st') =
    dom (documentSettings st) ∪ list_to_set resources /\
  exists new,
    sent st' = sent st ++ new /\
    Forall (fun q => exists r, r ∈ resources /\ q = GetConfiguration r (js "luma")) new /\
    (length new + size (documentSettings st) = size (documentSettings st'))%nat.
Proof.
  intros Hcap. cbn zeta.
  revert st Hcap. induction resources as [|r resources IH]; intros st Hcap.
  - cbn [foldl]. split; [set_solver|]. exists []. rewrite app_nil_r.
    split; [done|]. split; [constructor|done].
  - cbn [foldl].
    destruct (IH (fst (getDocumentSettings r st))) as (Hdom & new & Hsent & Hnew & Hsize).
    { by rewrite getDocumentSettings_flag. }
    rewrite Hdom, Hsent. rewrite <- Hsize. clear IH Hdom Hsent Hsize.
    assert (Forall (fun q => exists r0, r0 ∈ r :: resources /\
                                        q = GetConfiguration r0 (js "luma")) new) as Hnew'.
    { eapply Forall_impl; [exact Hnew|]. intros q (r0 & Hr0 & ->).
      exists r0. split; [by apply elem_of_cons; right|done]. }
    unfold getDocumentSettings. rewrite Hcap. cbn -[js].
    destruct (documentSettings st !! r) as [t|] eqn:Hres; cbn -[js].
    + split.
      * assert (r ∈ dom (documentSettings st)) by (apply elem_of_dom; eauto).
        set_solver.
      * exists new. done.
    + split.
      * rewrite dom_insert_L. set_solver.
      * exists (GetConfiguration r (js "luma") :: new). rewrite <- app_assoc.
        split; [done|]. split.
        -- constructor; [|done]. exists r. split; [by apply elem_of_cons; left|done].
        -- rewrite map_size_insert_None by done. simpl. lia.
Qed.

Lemma getDocumentSettings_one_request_per_resource_witness :
  let st := fst (onInitialize
                   {| capabilities :=
                        {| workspace := Some {| configuration := Some true;
                                                workspaceFolders := None |};
                           textDocument := None |} |} startState) in
  let st' := foldl (fun s r => fst (getDocumentSettings r s)) st
               [js "a.lotus"; js "b.lotus"; js "a.lotus"] in
  exists new,
    sent st' = sent st ++ new /\
    (length new + size (documentSettings st) = size (documentSettings st'))%nat.
Proof.
  intros st st'.
  destruct (getDocumentSettings_one_request_per_resource
              [js "a.lotus"; js "b.lotus"; js "a.lotus"] st) as (_ & new & Hsent & _ & Hsize).
  - reflexivity.
  - exists new. split; [exact Hsent|exact Hsize].
Defined.

(** X19: closing a document evicts its settings: the next lookup for it
    sends a second configuration request and returns a new promise. *)
Theorem onDidClose_evicts (document : TextDocument) (st : ServerState) :
  hasConfigurationCapability st = true ->
  documentSettings st !! uri document = None ->
  let request := GetConfiguration (uri document) (js "luma") in
  let st1 := fst (getDocumentSettings (uri document) st) in
  let st2 := onDidClose document st1 in
  let st3 := fst (getDocumentSettings (uri document) st2) in
  snd (getDocumentSettings (uri document) st) = ConfigurationRequest (length (sent st)) /\
  documentSettings st2 !! uri document = None /\
  snd (getDocumentSettings (uri document) st2)
    = ConfigurationRequest (S (length (sent st))) /\
  sent st3 = sent st ++ [request; request].
Proof.
  intros Hcap Hnone. cbn zeta.
  assert (getDocumentSettings (uri document) st =
          (setDocumentSettings
             (<[uri document := ConfigurationRequest (length (sent st))]>
                (documentSettings st))
             (send (GetConfiguration (uri document) (js "luma")) st),
           ConfigurationRequest (length (sent st)))) as ->.
  { unfold getDocumentSettings. by rewrite Hcap, Hnone. }
  cbn [fst snd]. unfold onDidClose, getDocumentSettings.
  cbn -[js]. rewrite Hcap, !lookup_delete_eq. cbn -[js].
  rewrite length_app, <- app_assoc. cbn -[js].
  repeat split; try done. f_equal. lia.
Qed.

Lemma onDidClose_evicts_witness :
  let document := lotusDocument (js "project Game;" ++ [CR; LF]) in
  let st := fst (onInitialize
                   {| capabilities :=
                        {| workspace := Some {| configuration := Some true;
                                                workspaceFolders := None |};
                           textDocument := None |} |} startState) in
  snd (getDocumentSettings (uri document)
         (onDidClose document (fst (getDocumentSettings (uri document) st))))
  = ConfigurationRequest 1.
Proof.
  intros document st.
  destruct (onDidClose_evicts document st) as (_ & _ & Hsecond & _);
    [reflexivity | reflexivity |].
  exact Hsecond.
Defined.

(** X20: when the client supports configuration requests, a
    configuration change never raises, whatever the settings it carries:
    it empties the cache, keeps the global settings, asks the client to
    refresh the diagnostics, and the next lookup for any resource sends a
    configuration request again. *)
Theorem onDidChangeConfiguration_invalidates (change : DidChangeConfigurationParams)
    (resource : str) (st : ServerState) :
  hasConfigurationCapability st = true ->
  exists st',
    onDidChangeConfiguration change st = Return st' /\
    documentSettings st' = ∅ /\
    globalSettings st' = globalSettings st /\
    sent st' = sent st ++ [DiagnosticsRefresh] /\
    snd (getDocumentSettings resource st') = ConfigurationRequest (S (length (sent st))) /\
    sent (fst (getDocumentSettings resource st')) =
      sent st ++ [DiagnosticsRefresh; GetConfiguration resource (js "luma")].
Proof.
  intros Hcap. unfold onDidChangeConfiguration. rewrite Hcap. cbn.
  eexists. split; [reflexivity|]. cbn.
  unfold getDocumentSettings. cbn -[js]. rewrite Hcap, lookup_empty. cbn -[js].
  rewrite length_app, <- app_assoc. cbn -[js].
  repeat split; try done. f_equal. lia.
Qed.

Lemma onDidChangeConfiguration_invalidates_witness :
  let st := fst (onInitialize
                   {| capabilities :=
                        {| workspace := Some {| configuration := Some true;
                                                workspaceFolders := None |};
                           textDocument := None |} |} startState) in
  let st1 := fst (getDocumentSettings (js "a.lotus") st) in
  exists st',
    onDidChangeConfiguration {| settings := None |} st1 = Return st' /\
    documentSettings st' = ∅.
Proof.
  intros st st1.
  destruct (onDidChangeConfiguration_invalidates {| settings := None |}
              (js "a.lotus") st1) as (st' & Hrun & Hcache & _); [reflexivity|].
  exists st'. split; [exact Hrun|exact Hcache].
Defined.

(** X21: when the client does not support configuration requests, a
    configuration change with a settings object replaces the global
    settings by its [luma] section, or by the default settings when the
    section is absent, and every later lookup resolves to that value,
    sends nothing and leaves the cache alone; a change whose settings are
    [null] raises a [TypeError]. *)
Theorem onDidChangeConfiguration_global (change : DidChangeConfigurationParams)
    (st : ServerState) :
  hasConfigurationCapability st = false ->
  match settings change with
  | Some section =>
      exists st',
        onDidChangeConfiguration change st = Return st' /\
        globalSettings st' = default defaultSettings (luma section) /\
        documentSettings st' = documentSettings st /\
        sent st' = sent st ++ [DiagnosticsRefresh] /\
        forall resource,
          getDocumentSettings resource st' =
          (st', PromiseResolve (default defaultSettings (luma section)))
  | None => onDidChangeConfiguration change st = Throw TypeError
  end.
Proof.
  intros Hcap. unfold onDidChangeConfiguration. rewrite Hcap.
  destruct (settings change) as [section|]; cbn; [|done].
  eexists. split; [reflexivity|]. cbn. repeat split.
  intros resource. unfold getDocumentSettings. cbn. by rewrite Hcap.
Qed.

Lemma onDidChangeConfiguration_global_witness :
  (exists st',
     onDidChangeConfiguration
       {| settings := Some {| luma := Some {| maxNumberOfProblems := 5 |} |} |}
       startState = Return st' /\
     getDocumentSettings (js "a.lotus") st' =
       (st', PromiseResolve {| maxNumberOfProblems := 5 |})) /\
  onDidChangeConfiguration {| settings := None |} startState = Throw TypeError.
Proof.
  split.
  - destruct (onDidChangeConfiguration_global
                {| settings := Some {| luma := Some {| maxNumberOfProblems := 5 |} |} |}
                startState eq_refl) as (st' & Hrun & _ & _ & _ & Hget).
    exists st'. split; [exact Hrun|apply Hget].
  - apply (onDidChangeConfiguration_global {| settings := None |} startState eq_refl).
Defined.

(** ** Initialisation *)

(** X22: initialisation followed by the initialized notification sends
    the registration for configuration changes exactly when the client
    declares [workspace.configuration], and subscribes to workspace
    folder changes exactly when it declares [workspace.workspaceFolders],
    in which case alone the result advertises workspace folder support;
    the configuration capability flag is the declared value, the settings
    and the cache are left as they are. *)
Theorem initialize_capabilities (params : InitializeParams) (st : ServerState) :
  let declared (field : WorkspaceClientCapabilities -> option bool) :=
    match workspace (capabilities params) with
    | Some w => truthy (field w)
    | None => false
    end in
  let st1 := fst (onInitialize params st) in
  let result := snd (onInitialize params st) in
  let st2 := onInitialized st1 in
  hasConfigurationCapability st2 = declared configuration /\
  sent st2 =
    sent st
    ++ (if declared configuration then [RegisterDidChangeConfiguration] else [])
    ++ (if declared workspaceFolders then [OnDidChangeWorkspaceFolders] else []) /\
  workspace_workspaceFolders_supported result =
    (if declared workspaceFolders then Some true else None) /\
  globalSettings st2 = globalSettings st /\
  documentSettings st2 = documentSettings st.
Proof.
  unfold onInitialize, onInitialized. cbn.
  destruct (workspace (capabilities params)) as [w|]; cbn.
  - destruct (truthy (configuration w)), (truthy (workspaceFolders w)); cbn;
      rewrite ?app_nil_r, <- ?app_assoc; done.
  - by rewrite app_nil_r.
Qed.

(** ** Pull diagnostics *)

Lemma getDocumentSettings_twice resource st :
  let st1 := fst (getDocumentSettings resource st) in
  getDocumentSettings resource st1 = (st1, snd (getDocumentSettings resource st)).
Proof.
  cbn zeta. destruct (hasConfigurationCapability st) eqn:Hcap.
  - apply getDocumentSettings_hit.
    + by rewrite getDocumentSettings_flag.
    + by apply getDocumentSettings_stored.
  - unfold getDocumentSettings. rewrite Hcap. cbn [negb fst snd]. by rewrite Hcap.
Qed.

(** X23: the pull handler never raises and always answers with a full
    report. For a uri that is not open the report is empty and the state
    is untouched; for an open document the items are the diagnostics of
    the validation pass, the same whatever settings the client answers
    with. *)
Theorem onDiagnostics_report (toLowerCase : str -> str) (client : nat -> Settings)
    (documents : gmap (list N) TextDocument) (requested : str) (st : ServerState) :
  exists ds,
    snd (onDiagnostics toLowerCase client documents requested st) =
      Return {| reportKind := DocumentDiagnosticReportKind.Full; items := ds |} /\
    match documents !! requested with
    | Some document =>
        forall settings,
          validateTextDocument toLowerCase settings document = Return ds
    | None =>
        ds = [] /\
        fst (onDiagnostics toLowerCase client documents requested st) = st
    end.
Proof.
  unfold onDiagnostics, validateOpenDocument.
  destruct (documents !! requested) as [document|]; [|by exists []].
  destruct (getDocumentSettings (uri document) st) as [st1 pending].
  destruct (validateTextDocument_allowed toLowerCase (await client pending) document)
    as (ds & Hrun & _).
  exists ds. cbn. rewrite Hrun. split; [done|].
  intros settings. exact Hrun.
Qed.

(** X24: a pull for a document whose content change has just been
    handled sends no request and changes no state: the settings lookup of
    the change is reused. *)
Theorem pull_after_change_reuses_settings (toLowerCase : str -> str)
    (client : nat -> Settings) (documents : gmap (list N) TextDocument)
    (document : TextDocument) (st : ServerState) :
  documents !! uri document = Some document ->
  let st1 := onDidChangeContent toLowerCase client document st in
  fst (onDiagnostics toLowerCase client documents (uri document) st1) = st1.
Proof.
  intros Hopen. cbn zeta.
  unfold onDiagnostics, onDidChangeContent, validateOpenDocument. rewrite Hopen.
  pose proof (getDocumentSettings_twice (uri document) st) as Htwice.
  cbn zeta in Htwice.
  destruct (getDocumentSettings (uri document) st) as [st1 pending]. cbn in *.
  by rewrite Htwice.
Qed.

Lemma pull_after_change_reuses_settings_witness :
  let document := lotusDocument (js "project Game" ++ [CR; LF]) in
  let st := fst (onInitialize
                   {| capabilities :=
                        {| workspace := Some {| configuration := Some true;
                                                workspaceFolders := None |};
                           textDocument := None |} |} startState) in
  let st1 := onDidChangeContent asciiLowerCase (fun _ => defaultSettings) document st in
  fst (onDiagnostics asciiLowerCase (fun _ => defaultSettings)
         {[ uri document := document ]} (uri document) st1) = st1.
Proof.
  intros document st st1.
  apply (pull_after_change_reuses_settings asciiLowerCase (fun _ => defaultSettings)
           {[ uri document := document ]} document st).
  apply lookup_singleton_eq.
Defined.
